(** * IIUCCPS-Ladder: the filter-and-status reconciliation engine

    A shallow embedding of the dashboard's core (problem merger, submission
    reconciler, filter engine, analytics aggregator) as found in
    [src/script.js] and [src/unnamed/part_000], and the properties the
    specification states about it.

    Conventions.
    - A JavaScript string is a [string]; the template literal
      [`${p.contestId}${p.index}`] is the decimal numeral of the contest
      number followed by the index ([pretty] on [Z] prints what JavaScript
      prints for an integer below [10^21] in absolute value).
    - A [Map] or an object used as a dictionary is a [gmap]; a [Map] that is
      iterated is an association list in insertion order. For a plain
      object the [gmap] covers the keys that are not names of inherited
      properties, and it does not keep the order of insertion.
    - A numeric field that may be missing is an [option Z]: [None] is the
      absent ([undefined]) [rating] of a problem, and the [null] of an
      unset [state.selectedRating].
    - [forEach] with a callback that mutates module-level state is a left
      fold of the callback over the array, threading the state. *)

From Stdlib Require Import Ascii.
From stdpp Require Import gmap strings list fin_maps pretty sorting.

Open Scope string_scope.
Open Scope Z_scope.

Set Warnings "-clear-no-such-hyp".

(** ** Data model *)

(** The two strings stored in [problemStatusMap]. *)
Inductive Status := SOLVED | ATTEMPTED.

Global Instance Status_eq_dec : EqDecision Status.
Proof. solve_decision. Defined.

(** [state.tagLogic]: the logic toggle assigns ['AND'] or ['OR'] only. *)
Inductive TagLogic := OR | AND.

Global Instance TagLogic_eq_dec : EqDecision TagLogic.
Proof. solve_decision. Defined.

(** A problem object of the remote API ([problemset.problems], and the
    [problem] field of a submission). *)
Record Problem := mkProblem {
  contestId : Z;
  index : string;
  name : string;
  rating : option Z;
  tags : list string
}.

Global Instance Problem_eq_dec : EqDecision Problem.
Proof. solve_decision. Defined.

(** An entry of [problemStatistics]. *)
Record Statistics := mkStatistics {
  stat_solvedCount : Z
}.

(** [{...problem, solvedCount: ...}]: the problem's own fields and the
    count taken from the statistics array. *)
Record ProblemRecord := mkRecord {
  fields :> Problem;
  solvedCount : Z
}.

Global Instance ProblemRecord_eq_dec : EqDecision ProblemRecord.
Proof. solve_decision. Defined.

(** An entry of [user.status]. *)
Record Submission := mkSubmission {
  problem : Problem;
  verdict : string
}.

Global Instance Submission_eq_dec : EqDecision Submission.
Proof. solve_decision. Defined.

(** The module-level [state] object (the handle is not part of the core). *)
Record FilterState := mkState {
  selectedRating : option Z;
  selectedTags : list string;
  tagLogic : TagLogic
}.

(** ** JavaScript helpers *)

(** [`${p.contestId}${p.index}`]. The contest number is an integer, as
    the platform sends it; the template prints an integer below [10^21]
    in absolute value in plain decimal digits, which is what [pretty]
    gives. *)
Definition problemId (p : Problem) : string :=
  pretty (contestId p) +:+ index p.

(** [sub.verdict === 'OK'] *)
Definition isOK (sub : Submission) : bool := bool_decide (verdict sub = "OK").

(** Truthiness of a numeric field that may be [null] or [undefined]:
    [if (x)] fails for a missing value and for [0]. *)
Definition truthy (x : option Z) : bool :=
  match x with
  | Some n => negb (n =? 0)
  | None => false
  end.

(** [Array.prototype.forEach] with a state-mutating callback. *)
Definition forEach {A S : Type} (cb : S → A → S) (arr : list A) (s : S) : S :=
  foldl cb s arr.

(** [Array.prototype.some] and [Array.prototype.every]. *)
Definition some {A : Type} (cb : A → bool) (arr : list A) : bool := existsb cb arr.
Definition every {A : Type} (cb : A → bool) (arr : list A) : bool := forallb cb arr.

(** [Array.prototype.filter] with a boolean callback. *)
Definition jsfilter {A : Type} (cb : A → bool) (arr : list A) : list A :=
  filter (λ x, Is_true (cb x)) arr.

(** [a === b] on two numeric fields: a missing rating is [undefined], an
    unset selection is [null], and neither is strictly equal to anything
    the other side can hold. *)
Definition strictEq (a b : option Z) : bool :=
  match a, b with
  | Some x, Some y => x =? y
  | _, _ => false
  end.

(** [Array.prototype.sort] with a comparator: a stable sort. Each element
    in turn is put in front of the first element it must strictly precede
    ([compare x y < 0]), and so behind everything it compares equal to. *)
Fixpoint sortInsert {A : Type} (compare : A → A → Z) (x : A) (sorted : list A)
  : list A :=
  match sorted with
  | [] => [x]
  | y :: rest =>
      if compare x y <? 0 then x :: y :: rest
      else y :: sortInsert compare x rest
  end.

Definition jssort {A : Type} (compare : A → A → Z) (arr : list A) : list A :=
  foldl (λ sorted x, sortInsert compare x sorted) [] arr.

(** [Set.prototype.has] *)
Definition has (s : gset string) (x : string) : bool := bool_decide (x ∈ s).

(** [String.prototype.trim], on the white-space characters of ASCII (the
    curated identifiers are a contest number followed by a letter index;
    no property below depends on which characters count as white space). *)
Fixpoint trimStart (s : string) : string :=
  match s with
  | String a s' => if Ascii.is_space a then trimStart s' else s
  | EmptyString => EmptyString
  end.

Definition trim (s : string) : string :=
  String.rev (trimStart (String.rev (trimStart s))).

(** A parsed row of [problems.csv]: the one column the program reads. *)
Record CsvRow := mkRow {
  problem_links : string
}.

(** What [generateAnalytics] leaves on the page: the "no problems solved
    yet" message with the charts hidden, or the two distributions handed
    to the chart renderers. *)
Inductive Analytics :=
  | NoData
  | Charts (tagCounts : gmap string nat) (ratingCounts : gmap Z nat).

(** The status cell of a table row. The class and the text of the cell
    are set together, by one of three branches: [status-solved] with the
    "Solved" text, [status-attempted] with the "Tried" text, and
    [status-unsolved] with a dash. *)
Inductive StatusCell := StatusSolved | StatusAttempted | StatusUnsolved.

(** A [<tr>] written by [renderProblemTable]: the values interpolated into
    its cells. *)
Record TableRow := mkTableRow {
  row_number : nat;
  row_link : string;
  row_name : string;
  row_solvedCount : Z;
  row_status : StatusCell
}.

(** The content of [tableBody]: the one placeholder row ("No problems
    match your criteria.", with its [colspan]) or the problem rows. *)
Inductive Table :=
  | Placeholder (colspan : nat)
  | Rows (rows : list TableRow).

(** What the countdown banner shows: the "expired" text, or the four
    fields of the timer. *)
Inductive Countdown :=
  | Expired
  | Remaining (days hours minutes seconds : string).

(** A user action on the filter controls. *)
Inductive UiEvent :=
  | RatingClick (newRating : Z)
  | TagClick (tag : string)
  | LogicChange (checked : bool).

(** The [state] object when the page has loaded. *)
Definition initialState : FilterState :=
  {| selectedRating := None; selectedTags := []; tagLogic := OR |}.

(** ** src/script.js *)

Module ScriptJs.

(** [csvdata]: [data.map((row) => row.problem_links)]. *)
Definition csvdata (data : list CsvRow) : list string :=
  problem_links <$> data.

(** The success branch of [fetchProblems] on [data.result]. The result is
    the new value of [allProblems]; [None] stands for the exception that
    [stats[index].solvedCount] raises when [stats] has no entry at
    [index], which the [catch] block turns into a status message. *)
Definition fetchProblems (ladderProblems : list string)
    (problems : list Problem) (stats : list Statistics)
  : option (list ProblemRecord) :=
  combinedData ← mapM id (imap (λ index problem,
      s ← stats !! index;
      Some {| fields := problem; solvedCount := stat_solvedCount s |}) problems);
  let allProblems := jsfilter (λ p : ProblemRecord, bool_decide (rating p ≠ None)) combinedData in
  let ladderSet : gset string := list_to_set (trim <$> ladderProblems) in
  let ladderMapped := jsfilter (λ p : ProblemRecord, has ladderSet (problemId p)) allProblems in
  Some ladderMapped.

(** The callback of [submissions.forEach] in [fetchUserStatus]. *)
Definition statusStep (problemStatusMap : gmap string Status) (sub : Submission)
  : gmap string Status :=
  let problemId := problemId (problem sub) in
  if isOK sub then
    <[problemId := SOLVED]> problemStatusMap
  else
    if bool_decide (problemStatusMap !! problemId ≠ Some SOLVED) then
      <[problemId := ATTEMPTED]> problemStatusMap
    else problemStatusMap.

(** The success branch of [fetchUserStatus] on [data.result]:
    [problemStatusMap.clear()] has emptied the map before the request, the
    array is reversed and the callback is run over it. *)
Definition fetchUserStatus (result : list Submission) : gmap string Status :=
  let problemStatusMap := ∅ in
  let submissions := reverse result in
  forEach statusStep submissions problemStatusMap.

(** The callback of the tag filter. *)
Definition tagCallback (state : FilterState) (p : ProblemRecord) : bool :=
  let problemTags : gset string := list_to_set (tags p) in
  if bool_decide (tagLogic state = OR) then
    some (λ tag, has problemTags tag) (selectedTags state)
  else
    every (λ tag, has problemTags tag) (selectedTags state).

(** [applyFiltersAndRender]: the array handed to [renderProblemTable], or
    [None] when the function returns without rendering. *)
Definition applyFiltersAndRender (allProblems : list ProblemRecord)
    (state : FilterState) : option (list ProblemRecord) :=
  if bool_decide (length allProblems = 0%nat) then None
  else
    let filtered := allProblems in
    if truthy (selectedRating state) then
      let filtered :=
        jsfilter (λ p : ProblemRecord, strictEq (rating p) (selectedRating state)) filtered in
      let filtered :=
        if bool_decide (0 < length (selectedTags state))%nat
        then jsfilter (tagCallback state) filtered
        else filtered in
      Some filtered
    else Some [].

(** *** The listeners of [setupEventListeners] and the buttons they serve *)

(** The rating buttons made by [renderRatingNav]. *)
Definition ratings : list Z := [800; 900; 1000; 1100; 1200; 1300; 1400].

(** The tag buttons made by [renderTags]. *)
Definition TAGS : list string :=
  ["implementation"; "dp"; "math"; "graphs"; "data structures"; "greedy";
   "strings"; "binary search"; "brute force"; "two pointers"; "sortings";
   "bitmasks"; "trees"; "constructive algorithms"; "number theory";
   "geometry"; "combinatorics"; "dsu"].

(** A click on the rating button of [newRating]:
    [state.selectedRating === newRating ? null : newRating]. *)
Definition ratingClick (newRating : Z) (state : FilterState) : FilterState :=
  {| selectedRating :=
       if bool_decide (selectedRating state = Some newRating) then None
       else Some newRating;
     selectedTags := selectedTags state;
     tagLogic := tagLogic state |}.

(** A click on the button of [tag]: [selectedTags.delete(tag)] when the set
    has it, [selectedTags.add(tag)] (at the end of the insertion order)
    when it has not. *)
Definition tagClick (tag : string) (state : FilterState) : FilterState :=
  {| selectedRating := selectedRating state;
     selectedTags :=
       if bool_decide (tag ∈ selectedTags state)
       then filter (λ t, t ≠ tag) (selectedTags state)
       else selectedTags state ++ [tag];
     tagLogic := tagLogic state |}.

(** A change of the logic toggle: [logicToggle.checked ? 'AND' : 'OR']. *)
Definition logicChange (checked : bool) (state : FilterState) : FilterState :=
  {| selectedRating := selectedRating state;
     selectedTags := selectedTags state;
     tagLogic := if checked then AND else OR |}.

(** *** Rendering *)

(** The row of the problem at position [rowIndex] of the array. [Number(p.solvedCount) || 0] is the count itself. *)
Definition tableRow (problemStatusMap : gmap string Status)
    (rowIndex : nat) (p : ProblemRecord) : TableRow :=
  let problemId := problemId p in
  let status := problemStatusMap !! problemId in
  let cell :=
    if bool_decide (status = Some SOLVED) then StatusSolved
    else if bool_decide (status = Some ATTEMPTED) then StatusAttempted
    else StatusUnsolved in
  let link :=
    "https://codeforces.com/problemset/problem/"
      +:+ pretty (contestId p) +:+ "/" +:+ index p in
  {| row_number := rowIndex + 1;
     row_link := link;
     row_name := name p;
     row_solvedCount := solvedCount p;
     row_status := cell |}.

(** [renderProblemTable]: the new content of [tableBody]. *)
Definition renderProblemTable (problems : list ProblemRecord)
    (problemStatusMap : gmap string Status) : Table :=
  if bool_decide (length problems = 0%nat) then Placeholder 5
  else Rows (imap (tableRow problemStatusMap) problems).

(** *** The saved handle *)

(** The first lines of [fetchUserStatus]: the handle that is looked up,
    or [None] when the trimmed input is empty and the function returns. *)
Definition lookupHandle (inputValue : string) : option string :=
  let handle := trim inputValue in
  if bool_decide (handle = "") then None else Some handle.

(** [localStorage.setItem('cfFinderHandle', state.cfHandle)] *)
Definition saveStateToLocalStorage (cfHandle : string)
    (localStorage : gmap string string) : gmap string string :=
  <["cfFinderHandle" := cfHandle]> localStorage.

(** [loadStateFromLocalStorage]: the handles that are looked up when the
    page loads (a saved, non-empty handle is put into the input and
    [fetchUserStatus] is called once). *)
Definition loadStateFromLocalStorage (localStorage : gmap string string)
  : list string :=
  match localStorage !! "cfFinderHandle" with
  | Some savedHandle =>
      if bool_decide (savedHandle ≠ "")
      then option_list (lookupHandle savedHandle)
      else []
  | None => []
  end.

End ScriptJs.

(** ** src/unnamed/part_000 *)

Module Part000.

(** [fetchCsvData]: [data.map((row) => row.problem_links.trim())]. *)
Definition fetchCsvData (data : list CsvRow) : list string :=
  (λ row, trim (problem_links row)) <$> data.

Definition fetchProblems (ladderProblems : list string)
    (problems : list Problem) (problemStatistics : list Statistics)
  : option (list ProblemRecord) :=
  combinedData ← mapM id (imap (λ index problem,
      s ← problemStatistics !! index;
      Some {| fields := problem; solvedCount := stat_solvedCount s |}) problems);
  let allProblems := jsfilter (λ p : ProblemRecord, bool_decide (rating p ≠ None)) combinedData in
  let ladderSet : gset string := list_to_set ladderProblems in
  let allProblems := jsfilter (λ p : ProblemRecord, has ladderSet (problemId p)) allProblems in
  Some allProblems.

Definition statusStep (problemStatusMap : gmap string Status) (sub : Submission)
  : gmap string Status :=
  let problemId := problemId (problem sub) in
  if isOK sub then <[problemId := SOLVED]> problemStatusMap
  else if bool_decide (problemStatusMap !! problemId ≠ Some SOLVED)
  then <[problemId := ATTEMPTED]> problemStatusMap
  else problemStatusMap.

(** The array is copied before it is reversed; [userSubmissions] keeps
    the wire order for the analytics. *)
Definition fetchUserStatus (userSubmissions : list Submission) : gmap string Status :=
  let problemStatusMap := ∅ in
  let submissions := reverse userSubmissions in
  forEach statusStep submissions problemStatusMap.

Definition tagCallback (state : FilterState) (p : ProblemRecord) : bool :=
  let problemTags : gset string := list_to_set (tags p) in
  if bool_decide (tagLogic state = OR)
  then some (λ tag, has problemTags tag) (selectedTags state)
  else every (λ tag, has problemTags tag) (selectedTags state).

Definition applyFiltersAndRender (allProblems : list ProblemRecord)
    (state : FilterState) : option (list ProblemRecord) :=
  if bool_decide (length allProblems = 0%nat) then None
  else
    let filtered := allProblems in
    if truthy (selectedRating state) then
      let filtered :=
        jsfilter (λ p : ProblemRecord, strictEq (rating p) (selectedRating state)) filtered in
      let filtered :=
        if bool_decide (0 < length (selectedTags state))%nat
        then jsfilter (tagCallback state) filtered
        else filtered in
      Some filtered
    else Some [].

(** *** Analytics *)

(** [solvedProblems] is a [Map] that is iterated afterwards: an
    association list in insertion order. *)
Definition mapHas (m : list (string * Problem)) (k : string) : bool :=
  bool_decide (k ∈ m.*1).

(** The callback of [submissions.forEach] in [generateAnalytics]. *)
Definition solvedStep (solvedProblems : list (string * Problem)) (sub : Submission)
  : list (string * Problem) :=
  if isOK sub then
    let problemId := problemId (problem sub) in
    if negb (mapHas solvedProblems problemId)
    then solvedProblems ++ [(problemId, problem sub)]
    else solvedProblems
  else solvedProblems.

Definition solvedProblems (submissions : list Submission) : list (string * Problem) :=
  forEach solvedStep submissions [].

(** [tagCounts[tag] = (tagCounts[tag] || 0) + 1], for a tag that is not
    the name of a property that [tagCounts], a plain object, inherits
    ([constructor], [toString], [__proto__] and the like): for those the
    read finds the inherited value and no count is kept. The tags of the
    platform are none of these names. Insertion order, which
    [Object.entries] lists, is not kept by the map. *)
Definition tagStep (tagCounts : gmap string nat) (tag : string) : gmap string nat :=
  <[tag := (default 0 (tagCounts !! tag) + 1)%nat]> tagCounts.

Definition tagAnalysis (solvedProblems : list (string * Problem)) : gmap string nat :=
  forEach (λ tagCounts entry, forEach tagStep (tags entry.2) tagCounts)
    solvedProblems ∅.

(** [if (problem.rating) ratingCounts[problem.rating] = ... + 1] *)
Definition ratingStep (ratingCounts : gmap Z nat) (entry : string * Problem)
  : gmap Z nat :=
  if truthy (rating entry.2) then
    match rating entry.2 with
    | Some r => <[r := (default 0 (ratingCounts !! r) + 1)%nat]> ratingCounts
    | None => ratingCounts
    end
  else ratingCounts.

Definition ratingAnalysis (solvedProblems : list (string * Problem)) : gmap Z nat :=
  forEach ratingStep solvedProblems ∅.

Definition generateAnalytics (submissions : list Submission) : Analytics :=
  let solvedProblems := solvedProblems submissions in
  if bool_decide (length solvedProblems = 0%nat) then NoData
  else Charts (tagAnalysis solvedProblems) (ratingAnalysis solvedProblems).

(** *** The listeners of [setupEventListeners] and the buttons they serve *)

(** The rating buttons made by [renderRatingNav]. *)
Definition ratings : list Z := [800; 900; 1000; 1100; 1200; 1300; 1400].

(** The tag buttons made by [renderTags]. *)
Definition TAGS : list string :=
  ["implementation"; "dp"; "math"; "graphs"; "data structures"; "greedy";
   "strings"; "binary search"; "brute force"; "two pointers"; "sortings";
   "bitmasks"; "trees"; "constructive algorithms"; "number theory";
   "geometry"; "combinatorics"; "dsu"].

(** A click on the rating button of [newRating]:
    [state.selectedRating === newRating ? null : newRating]. *)
Definition ratingClick (newRating : Z) (state : FilterState) : FilterState :=
  {| selectedRating :=
       if bool_decide (selectedRating state = Some newRating) then None
       else Some newRating;
     selectedTags := selectedTags state;
     tagLogic := tagLogic state |}.

(** A click on the button of [tag]: [selectedTags.delete(tag)] when the set
    has it, [selectedTags.add(tag)] (at the end of the insertion order)
    when it has not. *)
Definition tagClick (tag : string) (state : FilterState) : FilterState :=
  {| selectedRating := selectedRating state;
     selectedTags :=
       if bool_decide (tag ∈ selectedTags state)
       then filter (λ t, t ≠ tag) (selectedTags state)
       else selectedTags state ++ [tag];
     tagLogic := tagLogic state |}.

(** A change of the logic toggle: [logicToggle.checked ? 'AND' : 'OR']. *)
Definition logicChange (checked : bool) (state : FilterState) : FilterState :=
  {| selectedRating := selectedRating state;
     selectedTags := selectedTags state;
     tagLogic := if checked then AND else OR |}.

(** *** Rendering *)

(** The row of the problem at position [rowIndex] of the array. [p.solvedCount || 0] is the count itself. *)
Definition tableRow (problemStatusMap : gmap string Status)
    (rowIndex : nat) (p : ProblemRecord) : TableRow :=
  let problemId := problemId p in
  let status := problemStatusMap !! problemId in
  let cell :=
    if bool_decide (status = Some SOLVED) then StatusSolved
    else if bool_decide (status = Some ATTEMPTED) then StatusAttempted
    else StatusUnsolved in
  let link :=
    "https://codeforces.com/problemset/problem/"
      +:+ pretty (contestId p) +:+ "/" +:+ index p in
  {| row_number := rowIndex + 1;
     row_link := link;
     row_name := name p;
     row_solvedCount := solvedCount p;
     row_status := cell |}.

(** [renderProblemTable]: the new content of [tableBody] (the element is
    taken to be on the page). *)
Definition renderProblemTable (problems : list ProblemRecord)
    (problemStatusMap : gmap string Status) : Table :=
  if bool_decide (length problems = 0%nat) then Placeholder 4
  else Rows (imap (tableRow problemStatusMap) problems).

(** *** Charts *)

(** [renderTagsPieChart] on the entries of [tagData] (what
    [Object.entries] lists): the labels and the data of the pie chart,
    pair by pair. *)
Definition renderTagsPieChart (tagData : list (string * nat))
  : list (string * nat) :=
  let sortedTags :=
    jssort (λ x y : string * nat, Z.of_nat y.2 - Z.of_nat x.2) tagData in
  let topTags := take 10 sortedTags in
  let otherCount :=
    foldl (λ sum (entry : string * nat), sum + entry.2)%nat 0%nat
      (drop 10 sortedTags) in
  if bool_decide (0 < otherCount)%nat
  then topTags ++ [("Other", otherCount)]
  else topTags.

(** [renderRatingsBarChart] on the entries of [ratingData]: the labels
    (the ratings) and the data of the bar chart, pair by pair. *)
Definition renderRatingsBarChart (ratingData : list (Z * nat))
  : list (Z * nat) :=
  let sortedRatings := jssort (λ x y : Z * nat, x.1 - y.1) ratingData in
  sortedRatings.

(** *** The saved handle *)

(** The first lines of [fetchUserStatus]: the handle that is looked up,
    or [None] when the trimmed input is empty and the function returns. *)
Definition lookupHandle (inputValue : string) : option string :=
  let handle := trim inputValue in
  if bool_decide (handle = "") then None else Some handle.

(** [localStorage.setItem('cfLadderHandle', state.cfHandle)] *)
Definition saveStateToLocalStorage (cfHandle : string)
    (localStorage : gmap string string) : gmap string string :=
  <["cfLadderHandle" := cfHandle]> localStorage.

(** [loadStateFromLocalStorage]: the handles that are looked up when the
    page loads (a saved, non-empty handle is put into the input and
    [fetchUserStatus] is called once). *)
Definition loadStateFromLocalStorage (localStorage : gmap string string)
  : list string :=
  match localStorage !! "cfLadderHandle" with
  | Some savedHandle =>
      if bool_decide (savedHandle ≠ "")
      then option_list (lookupHandle savedHandle)
      else []
  | None => []
  end.

(** *** The countdown banner *)

(** [f]: the text of a timer field, padded to two digits. *)
Definition f (t : Z) : string :=
  if t <? 10 then "0" +:+ pretty t else pretty t.

(** The four numbers of the timer for [diff] milliseconds. *)
Definition countdownParts (diff : Z) : Z * Z * Z * Z :=
  (diff `div` 86400000,
   (diff `mod` 86400000) `div` 3600000,
   (diff `mod` 3600000) `div` 60000,
   (diff `mod` 60000) `div` 1000).

(** [updateCountdown] for [diff = registrationEndDate - now]. *)
Definition updateCountdown (diff : Z) : Countdown :=
  if diff <=? 0 then Expired
  else
    let '(days, hours, minutes, seconds) := countdownParts diff in
    Remaining (f days) (f hours) (f minutes) (f seconds).

(** *** The profile card *)

(** [String.prototype.toLowerCase] and [replace(/ /g, '-')], on ASCII
    strings (the platform's rank names are ASCII words separated by
    spaces): outside ASCII the case mapping of the language can change
    other characters, and even the length. *)
Definition lowerChar (a : Ascii.ascii) : Ascii.ascii :=
  let n := Ascii.N_of_ascii a in
  if ((65 <=? n) && (n <=? 90))%N then Ascii.ascii_of_N (n + 32) else a.

Fixpoint toLowerCase (s : string) : string :=
  match s with
  | EmptyString => EmptyString
  | String a rest => String (lowerChar a) (toLowerCase rest)
  end.

Fixpoint replaceSpaces (s : string) : string :=
  match s with
  | EmptyString => EmptyString
  | String a rest =>
      String (if Ascii.eqb a " " then "-"%char else a) (replaceSpaces rest)
  end.

(** [getRankClassName]: [!rank] holds for a missing rank and for the
    empty string. *)
Definition getRankClassName (rank : option string) : string :=
  match rank with
  | None => "rank-newbie"
  | Some rank =>
      if bool_decide (rank = "") then "rank-newbie"
      else "rank-" +:+ replaceSpaces (toLowerCase rank)
  end.

(** *** The theme *)

(** The first lines of [setupTheme]: whether [body] carries the class
    [light-mode] afterwards. [markupLight] says whether the markup of the
    page already carries it; [prefersDark] is the answer of
    [matchMedia('(prefers-color-scheme: dark)')]. *)
Definition setupTheme (markupLight prefersDark : bool)
    (localStorage : gmap string string) : bool :=
  let preferred := if prefersDark then "dark" else "light" in
  let savedTheme :=
    match localStorage !! "theme" with
    | Some theme => if bool_decide (theme = "") then preferred else theme
    | None => preferred
    end in
  if bool_decide (savedTheme = "light") then true else markupLight.

(** The change listener of the theme toggle: the class is toggled and the
    theme now shown is stored. *)
Definition themeChange (lightMode : bool) (localStorage : gmap string string)
  : bool * gmap string string :=
  let lightMode := negb lightMode in
  let currentTheme := if lightMode then "light" else "dark" in
  (lightMode, <["theme" := currentTheme]> localStorage).

End Part000.

(** ** Sample data *)

Definition P1 : Problem := mkProblem 1 "A" "Theatre Square" (Some 1000) ["math"].
Definition P2 : Problem := mkProblem 2 "B" "The least round way" (Some 2000) ["dp"; "math"].
Definition PA : Problem := mkProblem 1 "A" "Theatre Square" (Some 1200) ["math"].
Definition PB : Problem := mkProblem 2 "B" "The least round way" None ["dp"; "math"].
Definition PD : Problem := mkProblem 4 "C" "Registration system" (Some 1300) ["dp"].
Definition RD : ProblemRecord := {| fields := PD; solvedCount := 97000 |}.

(** ** Vocabulary of the statements *)

(** [{...problem, solvedCount: stats[index].solvedCount}] for an aligned pair. *)
Definition merge (p : Problem) (s : Statistics) : ProblemRecord :=
  {| fields := p; solvedCount := stat_solvedCount s |}.

(** The curated identities: the [problem_links] cells, trimmed. *)
Definition curated (rows : list CsvRow) : list string :=
  (λ row, trim (problem_links row)) <$> rows.

(** The records the contract asks for, in catalog order. *)
Definition ratedLadderRecords (rows : list CsvRow)
    (problems : list Problem) (stats : list Statistics) : list ProblemRecord :=
  filter (λ r : ProblemRecord, rating r ≠ None ∧ problemId r ∈ curated rows)
    (zip_with merge problems stats).

(** An accepted submission for the identity [k]. *)
Definition acceptedFor (k : string) (sub : Submission) : Prop :=
  verdict sub = "OK" ∧ problemId (problem sub) = k.

Global Instance acceptedFor_dec k sub : Decision (acceptedFor k sub).
Proof. unfold acceptedFor. apply _. Defined.

(** The problem object of the first accepted submission for [k], if any. *)
Definition firstAccepted (submissions : list Submission) (k : string)
  : option Problem :=
  (λ found, problem found.2) <$> list_find (acceptedFor k) submissions.

(** The listener that serves an action, for either file. *)
Definition ScriptJs_listener (state : FilterState) (e : UiEvent) : FilterState :=
  match e with
  | RatingClick r => ScriptJs.ratingClick r state
  | TagClick t => ScriptJs.tagClick t state
  | LogicChange c => ScriptJs.logicChange c state
  end.

Definition Part000_listener (state : FilterState) (e : UiEvent) : FilterState :=
  match e with
  | RatingClick r => Part000.ratingClick r state
  | TagClick t => Part000.tagClick t state
  | LogicChange c => Part000.logicChange c state
  end.

(** An action that the rendered page offers: the rating and tag buttons
    are the ones [renderRatingNav] and [renderTags] made. *)
Definition offered (e : UiEvent) : Prop :=
  match e with
  | RatingClick r => r ∈ Part000.ratings
  | TagClick t => t ∈ Part000.TAGS
  | LogicChange _ => True
  end.

(** [applyFiltersAndRender] written with the two stages side by side. *)
Definition stages (state : FilterState) (allProblems : list ProblemRecord)
  : list ProblemRecord :=
  let rated :=
    jsfilter (λ p : ProblemRecord, strictEq (rating p) (selectedRating state))
      allProblems in
  if bool_decide (0 < length (selectedTags state))%nat
  then jsfilter (Part000.tagCallback state) rated else rated.

(** What every listener keeps true of the filter state: the selected
    rating, if any, is one of the rating buttons; the selected tags are
    tag buttons, each selected once. *)
Definition wellFormed (state : FilterState) : Prop :=
  (selectedRating state = None ∨
   ∃ r, r ∈ Part000.ratings ∧ selectedRating state = Some r) ∧
  NoDup (selectedTags state) ∧
  (∀ tag, tag ∈ selectedTags state → tag ∈ Part000.TAGS).

(** A string of decimal digits. *)
Fixpoint allDigits (s : string) : Prop :=
  match s with
  | EmptyString => True
  | String a rest => is_Some (Ascii.is_nat a) ∧ allDigits rest
  end.

(** A problem index as the contest platform writes them: it starts with
    a character that is not a digit (a letter, as in [A] or [B1]). *)
Definition letterIndex (s : string) : Prop :=
  match s with
  | EmptyString => False
  | String a _ => Ascii.is_nat a = None
  end.

(** A string that does not begin with white space. *)
Definition noLeadingSpace (s : string) : Prop :=
  match s with
  | EmptyString => True
  | String a _ => Ascii.is_space a = false
  end.

(** Every character of a string passes a test. *)
Fixpoint allChars (test : Ascii.ascii → bool) (s : string) : bool :=
  match s with
  | EmptyString => true
  | String a rest => test a && allChars test rest
  end.

(** A character that may stand in a class name made from a rank: neither
    a space nor an upper-case letter. *)
Definition classChar (a : Ascii.ascii) : bool :=
  let n := Ascii.N_of_ascii a in
  negb (n =? 32)%N && negb ((65 <=? n) && (n <=? 90))%N.

(** A character of the ASCII range. *)
Definition isAscii (a : Ascii.ascii) : bool :=
  (Ascii.N_of_ascii a <? 128)%N.

(** An integer that a JavaScript number holds exactly
    ([Number.isSafeInteger]). *)
Definition safeInteger (z : Z) : Prop :=
  -9007199254740991 ≤ z ≤ 9007199254740991.

(** * Properties *)

(** ** Submission Reconciler *)

Section Reconciler.

Implicit Types (m : gmap string Status) (sub : Submission)
  (l : list Submission) (k : string).

Lemma statusStep_agree : ScriptJs.statusStep = Part000.statusStep.
Proof. reflexivity. Qed.

Lemma fetchUserStatus_agree : ScriptJs.fetchUserStatus = Part000.fetchUserStatus.
Proof. reflexivity. Qed.

Lemma isOK_true sub : isOK sub = true ↔ verdict sub = "OK".
Proof. unfold isOK. apply bool_decide_eq_true. Qed.

Lemma isOK_false sub : isOK sub = false ↔ verdict sub ≠ "OK".
Proof. unfold isOK. apply bool_decide_eq_false. Qed.

(** What one callback does to the entry of any identity. *)
Lemma statusStep_lookup m sub k :
  Part000.statusStep m sub !! k =
    if decide (problemId (problem sub) = k) then
      if isOK sub then Some SOLVED
      else if decide (m !! k = Some SOLVED) then Some SOLVED else Some ATTEMPTED
    else m !! k.
Proof.
  unfold Part000.statusStep; cbv zeta.
  destruct (isOK sub).
  - rewrite lookup_insert. by repeat case_decide.
  - case_bool_decide as Hm.
    + rewrite lookup_insert. destruct (decide (problemId (problem sub) = k)) as [<-|]; [|done].
      by rewrite decide_False.
    + destruct (decide (problemId (problem sub) = k)) as [<-|]; [|done].
      by rewrite decide_True.
Qed.

Lemma statusStep_SOLVED_stable m sub k :
  m !! k = Some SOLVED → Part000.statusStep m sub !! k = Some SOLVED.
Proof.
  intros Hk. rewrite statusStep_lookup.
  repeat case_decide; try done. by destruct (isOK sub).
Qed.

Lemma forEach_SOLVED_stable l m k :
  m !! k = Some SOLVED → forEach Part000.statusStep l m !! k = Some SOLVED.
Proof.
  revert m. induction l as [|sub l IH]; intros m Hk; [done|].
  apply IH. by apply statusStep_SOLVED_stable.
Qed.

Lemma forEach_snoc l sub m :
  forEach Part000.statusStep (l ++ [sub]) m
  = Part000.statusStep (forEach Part000.statusStep l m) sub.
Proof. unfold forEach. by rewrite foldl_snoc. Qed.

(** The newest submission, first on the wire, is folded in last. *)
Lemma fetchUserStatus_cons sub l :
  Part000.fetchUserStatus (sub :: l)
  = Part000.statusStep (Part000.fetchUserStatus l) sub.
Proof.
  unfold Part000.fetchUserStatus; cbv zeta.
  by rewrite reverse_cons, forEach_snoc.
Qed.

Lemma forEach_SOLVED l m k :
  forEach Part000.statusStep l m !! k = Some SOLVED ↔
  m !! k = Some SOLVED ∨
  ∃ sub, sub ∈ l ∧ problemId (problem sub) = k ∧ verdict sub = "OK".
Proof.
  induction l as [|sub l IH] using rev_ind.
  - split; [by left|]. intros [?|(?&?%elem_of_nil&_)]; done.
  - rewrite forEach_snoc, statusStep_lookup.
    destruct (decide (problemId (problem sub) = k)) as [Hid|Hid].
    + destruct (isOK sub) eqn:Hok.
      * apply isOK_true in Hok. split; [|done]. intros _. right. exists sub. set_solver.
      * apply isOK_false in Hok. case_decide as Hs.
        -- split; [|done]. intros _. apply IH in Hs. set_solver.
        -- split; [done|]. intros H. destruct Hs. apply IH. set_solver.
    + rewrite IH. set_solver.
Qed.

Lemma forEach_None l m k :
  forEach Part000.statusStep l m !! k = None ↔
  m !! k = None ∧ ∀ sub, sub ∈ l → problemId (problem sub) ≠ k.
Proof.
  induction l as [|sub l IH] using rev_ind.
  - set_solver.
  - rewrite forEach_snoc, statusStep_lookup.
    destruct (decide (problemId (problem sub) = k)) as [Hid|Hid].
    + split.
      * intros H. by repeat (case_decide || case_match).
      * intros [_ H]. destruct (H sub); [set_solver|done].
    + rewrite IH. set_solver.
Qed.

Lemma fetchUserStatus_SOLVED l k :
  Part000.fetchUserStatus l !! k = Some SOLVED ↔
  ∃ sub, sub ∈ l ∧ problemId (problem sub) = k ∧ verdict sub = "OK".
Proof.
  unfold Part000.fetchUserStatus; cbv zeta.
  rewrite forEach_SOLVED, lookup_empty.
  setoid_rewrite elem_of_reverse. naive_solver.
Qed.

Lemma fetchUserStatus_None l k :
  Part000.fetchUserStatus l !! k = None ↔
  ∀ sub, sub ∈ l → problemId (problem sub) ≠ k.
Proof.
  unfold Part000.fetchUserStatus; cbv zeta.
  rewrite forEach_None, lookup_empty.
  setoid_rewrite elem_of_reverse. naive_solver.
Qed.

Lemma fetchUserStatus_ATTEMPTED l k :
  Part000.fetchUserStatus l !! k = Some ATTEMPTED ↔
  (∃ sub, sub ∈ l ∧ problemId (problem sub) = k) ∧
  ¬ ∃ sub, sub ∈ l ∧ problemId (problem sub) = k ∧ verdict sub = "OK".
Proof.
  rewrite <-fetchUserStatus_SOLVED. split.
  - intros Hk. split; [|congruence].
    destruct (decide (Exists (λ sub, problemId (problem sub) = k) l)) as [He|He].
    + apply Exists_exists in He. naive_solver.
    + assert (Part000.fetchUserStatus l !! k = None); [|congruence].
      apply fetchUserStatus_None. intros sub ? ?. apply He, Exists_exists. eauto.
  - intros [(sub & Hin & Hid) Hns].
    destruct (Part000.fetchUserStatus l !! k) as [[]|] eqn:Hk; [done..|].
    rewrite fetchUserStatus_None in Hk. by destruct (Hk sub Hin).
Qed.

(** The final map depends on the set of submissions only. *)
Lemma fetchUserStatus_ext l l' :
  (∀ sub, sub ∈ l ↔ sub ∈ l') →
  Part000.fetchUserStatus l = Part000.fetchUserStatus l'.
Proof.
  intros Hll. apply map_eq. intros k.
  destruct (Part000.fetchUserStatus l' !! k) as [[]|] eqn:Hk.
  - apply fetchUserStatus_SOLVED. apply fetchUserStatus_SOLVED in Hk.
    setoid_rewrite Hll. done.
  - apply fetchUserStatus_ATTEMPTED. apply fetchUserStatus_ATTEMPTED in Hk.
    setoid_rewrite Hll. done.
  - apply fetchUserStatus_None. rewrite fetchUserStatus_None in Hk.
    setoid_rewrite Hll. done.
Qed.

End Reconciler.

(** C1. The reconciler runs its callback over the reversed wire list,
    starting from the empty map, so the newest submission [sub], first on
    the wire, is applied last, to the map built from the [older] ones. A
    verdict [OK] sets the identity of its problem to [SOLVED] whatever the
    map holds; any other verdict sets it to [ATTEMPTED] unless the map
    already holds [SOLVED] there, and then the map is left as it is. On the
    wire list [P1 WA; P1 OK; P2 WA] of two problems with different
    identities the result is exactly [{P1: SOLVED, P2: ATTEMPTED}]. *)
Theorem reconciler_oldest_first
    (step : gmap string Status → Submission → gmap string Status)
    (fetch : list Submission → gmap string Status)
    (sub : Submission) (older : list Submission) :
  (step = ScriptJs.statusStep ∧ fetch = ScriptJs.fetchUserStatus) ∨
  (step = Part000.statusStep ∧ fetch = Part000.fetchUserStatus) →
  let m := fetch older in
  let id := problemId (problem sub) in
  (∀ result, fetch result = foldl step ∅ (reverse result)) ∧
  fetch (sub :: older) = step m sub ∧
  (verdict sub = "OK" → step m sub = <[id := SOLVED]> m) ∧
  (verdict sub ≠ "OK" → m !! id = Some SOLVED → step m sub = m) ∧
  (verdict sub ≠ "OK" → m !! id ≠ Some SOLVED →
     step m sub = <[id := ATTEMPTED]> m) ∧
  (∀ p1 p2 wa, wa ≠ "OK" → problemId p1 ≠ problemId p2 →
     fetch [mkSubmission p1 wa; mkSubmission p1 "OK"; mkSubmission p2 wa]
     = {[ problemId p1 := SOLVED; problemId p2 := ATTEMPTED ]}).
Proof.
  intros Hfetch m id.
  assert (step = Part000.statusStep ∧ fetch = Part000.fetchUserStatus) as [Hs Hf].
  { destruct Hfetch as [[-> ->]|[-> ->]]; [|done].
    split; [apply statusStep_agree|apply fetchUserStatus_agree]. }
  subst m; rewrite Hs, Hf; clear Hfetch Hs Hf step fetch.
  split; [done|]. split; [apply fetchUserStatus_cons|].
  unfold Part000.statusStep; cbv zeta. fold id.
  split_and!.
  - intros Hok%isOK_true. by rewrite Hok.
  - intros Hok%isOK_false Hs. rewrite Hok. by rewrite bool_decide_eq_false_2 by auto.
  - intros Hok%isOK_false Hs. rewrite Hok. by rewrite bool_decide_eq_true_2.
  - intros p1 p2 wa Hwa Hne.
    rewrite !fetchUserStatus_cons. unfold Part000.statusStep, isOK; simpl.
    rewrite (bool_decide_eq_false_2 (wa = "OK")) by done.
    change (Part000.fetchUserStatus []) with (∅ : gmap string Status).
    rewrite (bool_decide_eq_true_2 (∅ !! _ ≠ _)) by (by rewrite lookup_empty).
    rewrite bool_decide_eq_false_2 by (rewrite lookup_insert_eq; auto).
    done.
Qed.

Lemma reconciler_oldest_first_witness :
  ScriptJs.fetchUserStatus
    [mkSubmission P1 "WRONG_ANSWER"; mkSubmission P1 "OK";
     mkSubmission P2 "WRONG_ANSWER"]
  = {[ "1A" := SOLVED; "2B" := ATTEMPTED ]}.
Proof.
  destruct (reconciler_oldest_first ScriptJs.statusStep ScriptJs.fetchUserStatus
              (mkSubmission P1 "OK") [mkSubmission P2 "WRONG_ANSWER"]
              (or_introl (conj eq_refl eq_refl))) as (_ & _ & _ & _ & _ & Hex).
  apply (Hex P1 P2 "WRONG_ANSWER"); vm_compute; discriminate.
Defined.

(** C2. Within one fold [SOLVED] is monotone: if the map holds [SOLVED]
    for an identity after the first [n] callbacks, it holds [SOLVED] for
    it, and so never [ATTEMPTED], after any later number [n'] of
    callbacks, the last one included. *)
Theorem solved_never_downgraded
    (step : gmap string Status → Submission → gmap string Status)
    (result : list Submission) (n n' : nat) (k : string) :
  step = ScriptJs.statusStep ∨ step = Part000.statusStep →
  (n ≤ n')%nat →
  forEach step (take n (reverse result)) ∅ !! k = Some SOLVED →
  forEach step (take n' (reverse result)) ∅ !! k = Some SOLVED ∧
  forEach step (take n' (reverse result)) ∅ !! k ≠ Some ATTEMPTED.
Proof.
  intros Hstep Hn Hk.
  assert (step = Part000.statusStep) as ->
    by (destruct Hstep as [->| ->]; [apply statusStep_agree|done]).
  cut (forEach Part000.statusStep (take n' (reverse result)) ∅ !! k = Some SOLVED).
  { intros ->. auto. }
  rewrite <-(take_drop n (take n' (reverse result))).
  rewrite take_take, Nat.min_l by done.
  unfold forEach at 1. rewrite foldl_app.
  by apply forEach_SOLVED_stable.
Qed.

Lemma solved_never_downgraded_witness :
  forEach ScriptJs.statusStep
    (take 3 (reverse [mkSubmission P1 "WRONG_ANSWER"; mkSubmission P1 "OK";
                      mkSubmission P2 "WRONG_ANSWER"])) ∅ !! "1A"
  = Some SOLVED.
Proof.
  apply (solved_never_downgraded ScriptJs.statusStep _ 2 3 "1A" (or_introl eq_refl)).
  - lia.
  - vm_compute. reflexivity.
Defined.

(** C9. The final map depends only on which submissions the list holds,
    not on their order: an identity is [SOLVED] iff some submission for it
    has verdict [OK], and [ATTEMPTED] iff there is a submission for it and
    none has verdict [OK]. So every permutation of the list gives the same
    map, and in particular folding the list as it came (undoing the
    reversal) gives the same map. *)
Theorem reconciler_order_irrelevant
    (fetch : list Submission → gmap string Status)
    (result result' : list Submission) :
  fetch = ScriptJs.fetchUserStatus ∨ fetch = Part000.fetchUserStatus →
  result ≡ₚ result' →
  fetch result' = fetch result ∧
  fetch (reverse result) = fetch result ∧
  (∀ k, fetch result !! k = Some SOLVED ↔
     ∃ sub, sub ∈ result ∧ problemId (problem sub) = k ∧ verdict sub = "OK") ∧
  (∀ k, fetch result !! k = Some ATTEMPTED ↔
     (∃ sub, sub ∈ result ∧ problemId (problem sub) = k) ∧
     ¬ ∃ sub, sub ∈ result ∧ problemId (problem sub) = k ∧ verdict sub = "OK").
Proof.
  intros Hfetch Hperm.
  assert (fetch = Part000.fetchUserStatus) as ->
    by (destruct Hfetch as [->| ->]; [apply fetchUserStatus_agree|done]).
  split; [|split; [|split]].
  - apply fetchUserStatus_ext. intros sub. by rewrite Hperm.
  - apply fetchUserStatus_ext. intros sub. apply elem_of_reverse.
  - intros k. apply fetchUserStatus_SOLVED.
  - intros k. apply fetchUserStatus_ATTEMPTED.
Qed.

Lemma reconciler_order_irrelevant_witness :
  Part000.fetchUserStatus
    [mkSubmission P1 "OK"; mkSubmission P2 "WRONG_ANSWER"; mkSubmission P1 "WRONG_ANSWER"]
  = Part000.fetchUserStatus
    [mkSubmission P1 "WRONG_ANSWER"; mkSubmission P1 "OK"; mkSubmission P2 "WRONG_ANSWER"].
Proof.
  refine (proj1 (reconciler_order_irrelevant Part000.fetchUserStatus
    [mkSubmission P1 "WRONG_ANSWER"; mkSubmission P1 "OK"; mkSubmission P2 "WRONG_ANSWER"]
    [mkSubmission P1 "OK"; mkSubmission P2 "WRONG_ANSWER"; mkSubmission P1 "WRONG_ANSWER"]
    (or_intror eq_refl) _)).
  etrans; [apply Permutation_swap|]. apply Permutation_skip, Permutation_swap.
Defined.

(** ** Problem Merger *)

Section Merger.

Implicit Types (problems : list Problem) (stats : list Statistics)
  (rows : list CsvRow) (r : ProblemRecord).

Lemma combinedData_aligned problems stats :
  (length problems ≤ length stats)%nat →
  mapM id (imap (λ index problem,
      s ← stats !! index;
      Some {| fields := problem; solvedCount := stat_solvedCount s |}) problems)
  = Some (zip_with merge problems stats).
Proof.
  intros Hlen. apply mapM_Some_2, Forall2_same_length_lookup_2.
  - rewrite length_imap, length_zip_with. lia.
  - intros i x y. rewrite list_lookup_imap, lookup_zip_with.
    destruct (problems !! i) as [p|]; [|done]. simpl.
    destruct (stats !! i) as [s|]; unfold merge; simpl; congruence.
Qed.

(** A statistics array that is too short makes the merge throw. *)
Lemma combinedData_misaligned problems stats :
  (length stats < length problems)%nat →
  mapM id (imap (λ index problem,
      s ← stats !! index;
      Some {| fields := problem; solvedCount := stat_solvedCount s |}) problems)
  = None.
Proof.
  intros Hlen. apply mapM_None_2, Exists_exists.
  destruct (lookup_lt_is_Some_2 problems (length stats) Hlen) as [p Hp].
  exists None. split; [|done].
  apply list_elem_of_lookup. exists (length stats).
  rewrite list_lookup_imap, Hp. simpl.
  by rewrite (lookup_ge_None_2 stats (length stats)).
Qed.

Lemma has_list_to_set (l : list string) (x : string) :
  has (list_to_set l) x ↔ x ∈ l.
Proof. unfold has. rewrite bool_decide_spec. apply elem_of_list_to_set. Qed.

Lemma jsfilter_elem_of {A} (cb : A → bool) (arr : list A) (x : A) :
  x ∈ jsfilter cb arr ↔ cb x = true ∧ x ∈ arr.
Proof. unfold jsfilter. rewrite list_elem_of_filter, Is_true_true. done. Qed.

Lemma ScriptJs_fetchProblems_aligned rows problems stats :
  length problems = length stats →
  ScriptJs.fetchProblems (ScriptJs.csvdata rows) problems stats
  = Some (ratedLadderRecords rows problems stats).
Proof.
  intros Hlen. unfold ScriptJs.fetchProblems.
  rewrite combinedData_aligned by lia. simpl. f_equal.
  unfold jsfilter, ratedLadderRecords. rewrite list_filter_filter.
  apply list_filter_iff. intros r.
  rewrite has_list_to_set, bool_decide_spec.
  unfold ScriptJs.csvdata, curated. rewrite <-list_fmap_compose. unfold compose. tauto.
Qed.

Lemma Part000_fetchProblems_aligned rows problems stats :
  length problems = length stats →
  Part000.fetchProblems (Part000.fetchCsvData rows) problems stats
  = Some (ratedLadderRecords rows problems stats).
Proof.
  intros Hlen. unfold Part000.fetchProblems.
  rewrite combinedData_aligned by lia. simpl. f_equal.
  unfold jsfilter, ratedLadderRecords. rewrite list_filter_filter.
  apply list_filter_iff. intros r.
  rewrite has_list_to_set, bool_decide_spec. unfold Part000.fetchCsvData, curated. tauto.
Qed.

Lemma ratedLadderRecords_elem_of rows problems stats r :
  r ∈ ratedLadderRecords rows problems stats ↔
  ∃ i p s, problems !! i = Some p ∧ stats !! i = Some s ∧
    r = {| fields := p; solvedCount := stat_solvedCount s |} ∧
    rating p ≠ None ∧
    ∃ row, row ∈ rows ∧ trim (problem_links row) = problemId p.
Proof.
  unfold ratedLadderRecords, curated.
  rewrite list_elem_of_filter, (list_elem_of_lookup (zip_with _ _ _)), list_elem_of_fmap.
  setoid_rewrite lookup_zip_with_Some. unfold merge. split.
  - intros [[Hr (row & Hid & Hrow)] (i & p & s & -> & Hp & Hs)].
    exists i, p, s. naive_solver.
  - intros (i & p & s & Hp & Hs & -> & Hr & row & Hrow & Hid).
    split; [naive_solver|]. exists i, p, s. done.
Qed.

End Merger.

(** C3. For index-aligned arrays both mergers succeed and return, in
    catalog order, exactly the records whose rating is defined and whose
    identity is one of the trimmed [problem_links] cells; each record is a
    problem together with the [solvedCount] of the statistics entry at the
    same position. For [problems = [a; b]] with [a] rated 1200, [b] unrated
    and an allow-list holding the identity of [a] only, the output is the
    one record of [a]. *)
Theorem merger_rated_and_curated
    (rows : list CsvRow) (problems : list Problem) (stats : list Statistics) :
  length problems = length stats →
  let out := ratedLadderRecords rows problems stats in
  ScriptJs.fetchProblems (ScriptJs.csvdata rows) problems stats = Some out ∧
  Part000.fetchProblems (Part000.fetchCsvData rows) problems stats = Some out ∧
  (∀ r : ProblemRecord, r ∈ out ↔
     ∃ i p s, problems !! i = Some p ∧ stats !! i = Some s ∧
       r = {| fields := p; solvedCount := stat_solvedCount s |} ∧
       rating p ≠ None ∧
       ∃ row, row ∈ rows ∧ trim (problem_links row) = problemId p) ∧
  (∀ a b sa sb,
     problems = [a; b] → stats = [sa; sb] →
     rating a = Some 1200 → rating b = None →
     (∀ id, id ∈ curated rows ↔ id = problemId a) →
     out = [{| fields := a; solvedCount := stat_solvedCount sa |}] ∧
     length out = 1%nat).
Proof.
  intros Hlen out. split; [|split; [|split]].
  - by apply ScriptJs_fetchProblems_aligned.
  - by apply Part000_fetchProblems_aligned.
  - intros r. apply ratedLadderRecords_elem_of.
  - intros a b sa sb -> -> Ha Hb Hset.
    cut (out = [{| fields := a; solvedCount := stat_solvedCount sa |}]).
    { intros ->. done. }
    subst out. unfold ratedLadderRecords. simpl.
    rewrite filter_cons_True.
    2:{ simpl. rewrite Ha. split; [done|]. by apply Hset. }
    rewrite filter_cons_False; [done|].
    simpl. rewrite Hb. by intros [? _].
Qed.

Lemma merger_rated_and_curated_witness :
  ScriptJs.fetchProblems (ScriptJs.csvdata [mkRow " 1A "])
    [PA; PB] [mkStatistics 5000; mkStatistics 10]
  = Some [{| fields := PA; solvedCount := 5000 |}].
Proof.
  destruct (merger_rated_and_curated [mkRow " 1A "] [PA; PB]
              [mkStatistics 5000; mkStatistics 10] eq_refl)
    as (Hscript & _ & _ & Hex).
  rewrite Hscript.
  destruct (Hex PA PB (mkStatistics 5000) (mkStatistics 10)
              eq_refl eq_refl eq_refl eq_refl) as [Hout _]; [|by rewrite Hout].
  intros id. vm_compute curated. vm_compute problemId.
  apply list_elem_of_singleton.
Defined.

(** ** Filter Engine *)

Section FilterEngine.

Implicit Types (allProblems rows : list ProblemRecord) (state : FilterState)
  (p : ProblemRecord).

Lemma tagCallback_agree : ScriptJs.tagCallback = Part000.tagCallback.
Proof. reflexivity. Qed.

Lemma applyFiltersAndRender_agree :
  ScriptJs.applyFiltersAndRender = Part000.applyFiltersAndRender.
Proof. reflexivity. Qed.

Lemma some_true {A} (cb : A → bool) (arr : list A) :
  some cb arr = true ↔ ∃ x, x ∈ arr ∧ cb x = true.
Proof.
  unfold some. rewrite existsb_exists.
  by setoid_rewrite list_elem_of_In.
Qed.

Lemma every_true {A} (cb : A → bool) (arr : list A) :
  every cb arr = true ↔ ∀ x, x ∈ arr → cb x = true.
Proof.
  unfold every. rewrite forallb_forall.
  by setoid_rewrite list_elem_of_In.
Qed.

Lemma has_tags p (tag : string) :
  has (list_to_set (tags p)) tag = true ↔ tag ∈ tags p.
Proof. rewrite <-Is_true_true. apply has_list_to_set. Qed.

Lemma tagCallback_OR state p :
  tagLogic state = OR →
  Part000.tagCallback state p = true ↔
  ∃ tag, tag ∈ selectedTags state ∧ tag ∈ tags p.
Proof.
  intros Hor. unfold Part000.tagCallback; cbv zeta.
  rewrite bool_decide_eq_true_2 by done. rewrite some_true.
  by setoid_rewrite has_tags.
Qed.

Lemma tagCallback_AND state p :
  tagLogic state = AND →
  Part000.tagCallback state p = true ↔
  ∀ tag, tag ∈ selectedTags state → tag ∈ tags p.
Proof.
  intros Hand. unfold Part000.tagCallback; cbv zeta.
  rewrite bool_decide_eq_false_2 by (by rewrite Hand). rewrite every_true.
  by setoid_rewrite has_tags.
Qed.

(** The rows rendered once a rating is chosen and tags are selected. *)
Lemma applyFiltersAndRender_tags allProblems state :
  allProblems ≠ [] →
  truthy (selectedRating state) = true →
  selectedTags state ≠ [] →
  Part000.applyFiltersAndRender allProblems state
  = Some (jsfilter (Part000.tagCallback state)
            (jsfilter (λ p : ProblemRecord, strictEq (rating p) (selectedRating state))
               allProblems)).
Proof.
  intros Hcat Hrating Htags. unfold Part000.applyFiltersAndRender.
  rewrite bool_decide_eq_false_2 by (by destruct allProblems).
  rewrite Hrating; cbv zeta.
  rewrite bool_decide_eq_true_2; [done|].
  destruct (selectedTags state); [done|simpl; lia].
Qed.

Lemma applyFiltersAndRender_sublist allProblems state :
  match Part000.applyFiltersAndRender allProblems state with
  | Some rows => rows `sublist_of` allProblems
  | None => allProblems = []
  end.
Proof.
  unfold Part000.applyFiltersAndRender.
  case_bool_decide as Hlen; [by destruct allProblems|].
  destruct (truthy _); cbv zeta; [|apply sublist_nil_l].
  case_bool_decide; unfold jsfilter.
  - etrans; apply sublist_filter; apply _.
  - apply sublist_filter; apply _.
Qed.

End FilterEngine.

(** C4. With no rating selected no row is ever handed to the renderer,
    whatever the catalog, the selected tags and the tag logic: on a
    non-empty catalog the engine renders the empty sequence, and on an
    empty catalog it returns before rendering anything. *)
Theorem unset_rating_shows_no_rows
    (allProblems : list ProblemRecord) (selected : list string) (logic : TagLogic) :
  let state :=
    {| selectedRating := None; selectedTags := selected; tagLogic := logic |} in
  ScriptJs.applyFiltersAndRender allProblems state
    = (if decide (allProblems = []) then None else Some []) ∧
  Part000.applyFiltersAndRender allProblems state
    = (if decide (allProblems = []) then None else Some []) ∧
  (∀ rows, ScriptJs.applyFiltersAndRender allProblems state = Some rows → rows = []) ∧
  (∀ rows, Part000.applyFiltersAndRender allProblems state = Some rows → rows = []).
Proof.
  intros state. rewrite applyFiltersAndRender_agree.
  assert (Part000.applyFiltersAndRender allProblems state
          = if decide (allProblems = []) then None else Some []) as ->.
  { unfold Part000.applyFiltersAndRender. by destruct allProblems. }
  repeat split; intros rows; case_decide; congruence.
Qed.

(** C5. For a record of the catalog that passes the rating filter (a
    rating is selected and the record's rating is strictly equal to it),
    with at least one tag selected: under [OR] the record is among the
    rendered rows iff some selected tag is one of its tags, under [AND]
    iff every selected tag is one of its tags. With [dp] and [math]
    selected and a record tagged [dp] only, [OR] keeps it and [AND] drops
    it. *)
Theorem tag_logic_or_and
    (engine : list ProblemRecord → FilterState → option (list ProblemRecord))
    (allProblems : list ProblemRecord) (state : FilterState) (p : ProblemRecord) :
  engine = ScriptJs.applyFiltersAndRender ∨ engine = Part000.applyFiltersAndRender →
  p ∈ allProblems →
  truthy (selectedRating state) = true →
  strictEq (rating p) (selectedRating state) = true →
  selectedTags state ≠ [] →
  ∃ rows, engine allProblems state = Some rows ∧
    (tagLogic state = OR →
       (p ∈ rows ↔ ∃ tag, tag ∈ selectedTags state ∧ tag ∈ tags p)) ∧
    (tagLogic state = AND →
       (p ∈ rows ↔ ∀ tag, tag ∈ selectedTags state → tag ∈ tags p)) ∧
    ((∀ tag, tag ∈ selectedTags state ↔ tag = "dp" ∨ tag = "math") →
     (∀ tag, tag ∈ tags p ↔ tag = "dp") →
     (tagLogic state = OR → p ∈ rows) ∧ (tagLogic state = AND → p ∉ rows)).
Proof.
  intros Hengine Hp Hsel Hrating Htags.
  assert (engine = Part000.applyFiltersAndRender) as ->
    by (destruct Hengine as [->| ->]; [apply applyFiltersAndRender_agree|done]).
  eexists. split.
  { apply applyFiltersAndRender_tags; [|done..]. intros ->. by apply elem_of_nil in Hp. }
  assert (∀ P : Prop, (Part000.tagCallback state p = true ↔ P) →
    (p ∈ jsfilter (Part000.tagCallback state)
           (jsfilter (λ p : ProblemRecord, strictEq (rating p) (selectedRating state))
              allProblems) ↔ P)) as Hin.
  { intros P <-. rewrite !jsfilter_elem_of. naive_solver. }
  split; [|split].
  - intros Hor. by apply Hin, tagCallback_OR.
  - intros Hand. by apply Hin, tagCallback_AND.
  - intros Hs Ht. split.
    + intros Hor. apply (Hin _ (tagCallback_OR state p Hor)).
      exists "dp". split; [apply Hs; auto|by apply Ht].
    + intros Hand. rewrite (Hin _ (tagCallback_AND state p Hand)).
      intros Hall. specialize (Hall "math"). rewrite Hs, Ht in Hall.
      discriminate Hall. by right.
Qed.

Lemma tag_logic_or_and_witness :
  ∃ rows,
    ScriptJs.applyFiltersAndRender [RD]
      {| selectedRating := Some 1300; selectedTags := ["dp"; "math"]; tagLogic := OR |}
    = Some rows ∧ RD ∈ rows.
Proof.
  destruct (tag_logic_or_and ScriptJs.applyFiltersAndRender [RD]
              {| selectedRating := Some 1300; selectedTags := ["dp"; "math"];
                 tagLogic := OR |} RD (or_introl eq_refl))
    as (rows & Hrows & _ & _ & Hex).
  - apply list_elem_of_singleton. reflexivity.
  - reflexivity.
  - reflexivity.
  - discriminate.
  - exists rows. split; [exact Hrows|]. apply Hex.
    + intros tag. simpl. rewrite elem_of_cons, list_elem_of_singleton. tauto.
    + intros tag. apply list_elem_of_singleton.
    + reflexivity.
Defined.

(** C8. The rendered rows are a subsequence of the catalog: the engine
    only drops records, it never reorders or repeats them. (When nothing
    is rendered the catalog is empty.) *)
Theorem filter_preserves_catalog_order
    (allProblems : list ProblemRecord) (state : FilterState) :
  match ScriptJs.applyFiltersAndRender allProblems state with
  | Some rows => rows `sublist_of` allProblems
  | None => allProblems = []
  end ∧
  match Part000.applyFiltersAndRender allProblems state with
  | Some rows => rows `sublist_of` allProblems
  | None => allProblems = []
  end.
Proof.
  rewrite applyFiltersAndRender_agree.
  split; apply applyFiltersAndRender_sublist.
Qed.

(** C10. The two copies of the logic agree: on every submission list the
    two reconcilers build the same status map (their callbacks agree on
    every map and submission), and on every catalog and filter state the
    two filter engines render the same rows. *)
Theorem legacy_agrees_with_primary :
  (∀ m sub, ScriptJs.statusStep m sub = Part000.statusStep m sub) ∧
  (∀ result, ScriptJs.fetchUserStatus result = Part000.fetchUserStatus result) ∧
  (∀ allProblems state,
     ScriptJs.applyFiltersAndRender allProblems state
     = Part000.applyFiltersAndRender allProblems state).
Proof.
  split; [|split].
  - intros m sub. by rewrite statusStep_agree.
  - intros result. by rewrite fetchUserStatus_agree.
  - intros allProblems state. by rewrite applyFiltersAndRender_agree.
Qed.

(** ** Analytics Aggregator *)

Section Analytics.

Implicit Types (sub : Submission) (l : list Submission) (k tag : string)
  (p : Problem) (m : list (string * Problem)).

Lemma solvedProblems_snoc l sub :
  Part000.solvedProblems (l ++ [sub])
  = Part000.solvedStep (Part000.solvedProblems l) sub.
Proof. unfold Part000.solvedProblems, forEach. by rewrite foldl_snoc. Qed.

Lemma mapHas_true m k : Part000.mapHas m k = true ↔ k ∈ m.*1.
Proof. unfold Part000.mapHas. apply bool_decide_eq_true. Qed.

Lemma solvedStep_elem_of m sub k p :
  (k, p) ∈ Part000.solvedStep m sub ↔
  (k, p) ∈ m ∨ (acceptedFor k sub ∧ p = problem sub ∧ k ∉ m.*1).
Proof.
  unfold Part000.solvedStep, acceptedFor; cbv zeta.
  destruct (isOK sub) eqn:Hok.
  - apply isOK_true in Hok.
    destruct (Part000.mapHas m (problemId (problem sub))) eqn:Hhas; simpl.
    + apply mapHas_true in Hhas. naive_solver.
    + apply not_true_iff_false in Hhas. rewrite mapHas_true in Hhas.
      rewrite elem_of_app, list_elem_of_singleton. naive_solver.
  - apply isOK_false in Hok. naive_solver.
Qed.

Lemma firstAccepted_snoc l sub k :
  firstAccepted (l ++ [sub]) k =
  match firstAccepted l k with
  | Some p => Some p
  | None => if decide (acceptedFor k sub) then Some (problem sub) else None
  end.
Proof.
  unfold firstAccepted.
  destruct (list_find (acceptedFor k) l) as [[i x]|] eqn:Hfind.
  - by rewrite (list_find_app_l _ _ _ _ _ Hfind).
  - rewrite (list_find_app_r _ _ _ Hfind). simpl. by case_decide.
Qed.

Lemma solvedProblems_elem_of l k p :
  (k, p) ∈ Part000.solvedProblems l ↔ firstAccepted l k = Some p.
Proof.
  revert k p. induction l as [|sub l IH] using rev_ind; intros k p.
  - split; [by intros ?%elem_of_nil|done].
  - rewrite solvedProblems_snoc, solvedStep_elem_of, firstAccepted_snoc, IH.
    assert (k ∉ (Part000.solvedProblems l).*1 ↔ firstAccepted l k = None) as ->.
    { rewrite eq_None_not_Some. apply not_iff_compat.
      rewrite list_elem_of_fmap. split.
      - intros ([k' p'] & -> & Hin). apply IH in Hin. eauto.
      - intros [p' Hp']. apply IH in Hp'. by exists (k, p'). }
    destruct (firstAccepted l k); [naive_solver|].
    case_decide; naive_solver.
Qed.

Lemma solvedProblems_keys l k :
  k ∈ (Part000.solvedProblems l).*1 ↔ is_Some (firstAccepted l k).
Proof.
  rewrite list_elem_of_fmap. split.
  - intros ([k' p] & -> & Hin). apply solvedProblems_elem_of in Hin. eauto.
  - intros [p Hp]. apply solvedProblems_elem_of in Hp. by exists (k, p).
Qed.

Lemma solvedProblems_NoDup l : NoDup (Part000.solvedProblems l).*1.
Proof.
  induction l as [|sub l IH] using rev_ind; [constructor|].
  rewrite solvedProblems_snoc. unfold Part000.solvedStep; cbv zeta.
  destruct (isOK sub); [|done].
  destruct (Part000.mapHas _ _) eqn:Hhas; simpl; [done|].
  apply not_true_iff_false in Hhas. rewrite mapHas_true in Hhas.
  rewrite fmap_app. apply NoDup_app. split_and!; [done| |apply NoDup_singleton].
  intros x Hx ->%list_elem_of_singleton. done.
Qed.

(** Every stored entry is keyed by the identity of its problem. *)
Lemma solvedProblems_key l k p :
  (k, p) ∈ Part000.solvedProblems l → k = problemId p.
Proof.
  rewrite solvedProblems_elem_of. unfold firstAccepted.
  intros ([i sub] & Hfind & ->)%fmap_Some.
  apply list_find_Some in Hfind as (_ & [_ <-] & _). done.
Qed.

Lemma solvedProblems_nil l :
  Part000.solvedProblems l = [] ↔ ∀ sub, sub ∈ l → verdict sub ≠ "OK".
Proof.
  split.
  - intros Hnil sub Hin Hok.
    destruct (list_find_elem_of (acceptedFor (problemId (problem sub))) l sub)
      as [[i x] Hfind]; [done|done|].
    assert ((problemId (problem sub), problem x) ∈ Part000.solvedProblems l) as Hel.
    { apply solvedProblems_elem_of. unfold firstAccepted. by rewrite Hfind. }
    rewrite Hnil in Hel. by apply elem_of_nil in Hel.
  - intros Hall. destruct (Part000.solvedProblems l) as [|[k p] m] eqn:Hm; [done|].
    assert ((k, p) ∈ Part000.solvedProblems l) as Hel by (rewrite Hm; left).
    apply solvedProblems_elem_of in Hel. unfold firstAccepted in Hel.
    apply fmap_Some in Hel as ([i sub] & Hfind & _).
    apply list_find_Some in Hfind as (Hi%list_elem_of_lookup_2 & [Hok _] & _).
    by destruct (Hall sub).
Qed.

(** *** The rating distribution *)

Lemma ratingStep_lookup (rc : gmap Z nat) (entry : string * Problem) (r : Z) :
  default 0%nat (Part000.ratingStep rc entry !! r)
  = (default 0 (rc !! r)
     + if decide (rating entry.2 = Some r ∧ r ≠ 0%Z) then 1 else 0)%nat.
Proof.
  unfold Part000.ratingStep, truthy.
  destruct (rating entry.2) as [r'|]; [|rewrite decide_False by naive_solver; lia].
  destruct (Z.eqb_spec r' 0) as [->|Hr']; simpl.
  - rewrite decide_False by naive_solver. lia.
  - rewrite lookup_insert. destruct (decide (r' = r)) as [->|Hne].
    + rewrite decide_True by done. simpl. lia.
    + rewrite decide_False by naive_solver. lia.
Qed.

Lemma ratingAnalysis_from m (rc : gmap Z nat) (r : Z) :
  default 0%nat (forEach Part000.ratingStep m rc !! r)
  = (default 0 (rc !! r)
     + length (filter (λ entry : string * Problem,
                         rating entry.2 = Some r ∧ r ≠ 0%Z) m))%nat.
Proof.
  revert rc. induction m as [|entry m IH]; intros rc; simpl; [lia|].
  rewrite IH, ratingStep_lookup, filter_cons.
  destruct (decide (rating entry.2 = Some r ∧ r ≠ 0%Z)); simpl; lia.
Qed.

Lemma ratingAnalysis_positive m :
  map_Forall (λ _ n, 0 < n)%nat (Part000.ratingAnalysis m).
Proof.
  unfold Part000.ratingAnalysis.
  cut (∀ rc : gmap Z nat, map_Forall (λ _ n, 0 < n)%nat rc →
         map_Forall (λ _ n, 0 < n)%nat (forEach Part000.ratingStep m rc)).
  { intros H. apply H, map_Forall_empty. }
  induction m as [|entry m IH]; intros rc Hrc; [done|].
  apply IH. unfold Part000.ratingStep.
  destruct (truthy _); [|done]. destruct (rating entry.2); [|done].
  apply map_Forall_insert_2; [lia|done].
Qed.

End Analytics.


(** C7. When no submission survives the deduplication (in particular on
    the empty list) the aggregator shows the "no data" message and hands
    no distribution to the charts. *)
Theorem empty_solved_set_signals_no_data (submissions : list Submission) :
  Part000.solvedProblems submissions = [] →
  Part000.generateAnalytics submissions = NoData ∧
  ∀ tc rc, Part000.generateAnalytics submissions ≠ Charts tc rc.
Proof.
  intros Hnil.
  assert (Part000.generateAnalytics submissions = NoData) as ->; [|done].
  unfold Part000.generateAnalytics; cbv zeta. by rewrite Hnil.
Qed.

Lemma empty_solved_set_signals_no_data_witness :
  Part000.generateAnalytics [] = NoData ∧
  Part000.generateAnalytics [mkSubmission P1 "WRONG_ANSWER"] = NoData.
Proof.
  split.
  - apply (empty_solved_set_signals_no_data []). reflexivity.
  - apply (empty_solved_set_signals_no_data [mkSubmission P1 "WRONG_ANSWER"]).
    reflexivity.
Defined.

(** * Further properties of the code *)

(** ** Problem Merger: bounds and the curated set *)

Section MergerMore.

Implicit Types (problems : list Problem) (stats : list Statistics)
  (ladder : list string) (rows : list CsvRow).

Lemma combinedData_take problems stats :
  mapM id (imap (λ index problem,
      s ← stats !! index;
      Some {| fields := problem; solvedCount := stat_solvedCount s |}) problems)
  = mapM id (imap (λ index problem,
      s ← take (length problems) stats !! index;
      Some {| fields := problem; solvedCount := stat_solvedCount s |}) problems).
Proof.
  f_equal. apply list_eq. intros i. rewrite !list_lookup_imap.
  destruct (problems !! i) as [p|] eqn:Hp; [|done]. simpl.
  by rewrite lookup_take_lt by eauto using lookup_lt_Some.
Qed.

Lemma jsfilter_ext {A} (cb cb' : A → bool) (arr : list A) :
  (∀ x, x ∈ arr → cb x = cb' x) → jsfilter cb arr = jsfilter cb' arr.
Proof.
  unfold jsfilter. induction arr as [|x arr IH]; intros Hext; [done|].
  rewrite !filter_cons, (Hext x) by left.
  rewrite IH by (intros y Hy; apply Hext; by right). done.
Qed.

Lemma has_ext (l l' : list string) (x : string) :
  (∀ id, id ∈ l ↔ id ∈ l') →
  has (list_to_set l) x = has (list_to_set l') x.
Proof.
  intros Hll. apply eq_true_iff_eq.
  rewrite <-!Is_true_true, !has_list_to_set. apply Hll.
Qed.

Lemma ScriptJs_fetchProblems_None ladder problems stats :
  ScriptJs.fetchProblems ladder problems stats = None ↔
  (length stats < length problems)%nat.
Proof.
  unfold ScriptJs.fetchProblems. split.
  - intros Hnone. destruct (decide (length stats < length problems)%nat); [done|].
    rewrite combinedData_aligned in Hnone by lia. done.
  - intros Hlt. by rewrite combinedData_misaligned.
Qed.

Lemma Part000_fetchProblems_None ladder problems stats :
  Part000.fetchProblems ladder problems stats = None ↔
  (length stats < length problems)%nat.
Proof.
  unfold Part000.fetchProblems. split.
  - intros Hnone. destruct (decide (length stats < length problems)%nat); [done|].
    rewrite combinedData_aligned in Hnone by lia. done.
  - intros Hlt. by rewrite combinedData_misaligned.
Qed.

Lemma fetchProblems_agree rows problems stats :
  ScriptJs.fetchProblems (ScriptJs.csvdata rows) problems stats
  = Part000.fetchProblems (Part000.fetchCsvData rows) problems stats.
Proof.
  unfold ScriptJs.fetchProblems, Part000.fetchProblems.
  destruct (mapM _ _) as [combinedData|]; [|done]. simpl. f_equal.
  apply jsfilter_ext. intros r _. apply has_ext. intros id.
  unfold ScriptJs.csvdata, Part000.fetchCsvData.
  by rewrite <-list_fmap_compose.
Qed.

End MergerMore.

(** X1. The merge raises (and the catalog is left as it was) exactly when
    the statistics array is shorter than the problems array. A statistics
    array that is longer is accepted without notice: the entries beyond
    the last problem are never read. *)
Theorem merger_fails_iff_statistics_short
    (ladder : list string) (problems : list Problem) (stats : list Statistics) :
  (ScriptJs.fetchProblems ladder problems stats = None ↔
     (length stats < length problems)%nat) ∧
  (Part000.fetchProblems ladder problems stats = None ↔
     (length stats < length problems)%nat) ∧
  ScriptJs.fetchProblems ladder problems stats
    = ScriptJs.fetchProblems ladder problems (take (length problems) stats) ∧
  Part000.fetchProblems ladder problems stats
    = Part000.fetchProblems ladder problems (take (length problems) stats).
Proof.
  split_and!.
  - apply ScriptJs_fetchProblems_None.
  - apply Part000_fetchProblems_None.
  - unfold ScriptJs.fetchProblems. by rewrite combinedData_take.
  - unfold Part000.fetchProblems. by rewrite combinedData_take.
Qed.

(** X2. The two mergers agree on every input, aligned or not: trimming the
    cells when the file is read ([fetchCsvData]) or when the set is built
    ([fetchProblems] of script.js) gives the same catalog or the same
    failure. *)
Theorem mergers_agree
    (rows : list CsvRow) (problems : list Problem) (stats : list Statistics) :
  ScriptJs.fetchProblems (ScriptJs.csvdata rows) problems stats
  = Part000.fetchProblems (Part000.fetchCsvData rows) problems stats.
Proof. apply fetchProblems_agree. Qed.

(** X3. Only membership in the curated list matters: two lists of cells
    that hold the same identities after trimming (in any order, with any
    repetition or padding) give the same catalog. *)
Theorem merger_curated_set_only
    (ladder ladder' : list string) (problems : list Problem)
    (stats : list Statistics) :
  (∀ id, id ∈ trim <$> ladder ↔ id ∈ trim <$> ladder') →
  ScriptJs.fetchProblems ladder problems stats
  = ScriptJs.fetchProblems ladder' problems stats ∧
  Part000.fetchProblems (trim <$> ladder) problems stats
  = Part000.fetchProblems (trim <$> ladder') problems stats.
Proof.
  intros Hset. unfold ScriptJs.fetchProblems, Part000.fetchProblems.
  destruct (mapM _ _) as [combinedData|]; [|done]. simpl.
  split; f_equal; apply jsfilter_ext; intros r _; by apply has_ext.
Qed.

Lemma merger_curated_set_only_witness :
  ScriptJs.fetchProblems ["2B"; " 1A "; "1A"] [PA; PB]
    [mkStatistics 5000; mkStatistics 10]
  = ScriptJs.fetchProblems ["1A"; "2B	"] [PA; PB]
    [mkStatistics 5000; mkStatistics 10].
Proof.
  apply (merger_curated_set_only ["2B"; " 1A "; "1A"] ["1A"; "2B	"]).
  intros id. vm_compute (trim <$> _). set_solver.
Defined.

(** X4. While the curated list is empty (the file has not been read yet,
    or reading it failed) the merge never gives a catalog with a problem
    in it: it fails when the statistics array is shorter than the problems
    array, and gives the empty catalog otherwise. With an empty catalog
    the filter engine returns without rendering for every filter state:
    the table is never touched. *)
Theorem empty_curated_list_renders_nothing
    (problems : list Problem) (stats : list Statistics) :
  ScriptJs.fetchProblems (ScriptJs.csvdata []) problems stats
    = (if decide (length stats < length problems)%nat then None else Some []) ∧
  Part000.fetchProblems (Part000.fetchCsvData []) problems stats
    = (if decide (length stats < length problems)%nat then None else Some []) ∧
  ∀ state, ScriptJs.applyFiltersAndRender [] state = None ∧
           Part000.applyFiltersAndRender [] state = None.
Proof.
  rewrite <-fetchProblems_agree.
  assert (ScriptJs.fetchProblems (ScriptJs.csvdata []) problems stats
          = if decide (length stats < length problems)%nat then None else Some [])
    as ->; [|done].
  case_decide as Hlen; [by apply ScriptJs_fetchProblems_None|].
  unfold ScriptJs.fetchProblems. rewrite combinedData_aligned by lia. simpl.
  f_equal. unfold jsfilter.
  induction (filter _ (zip_with merge problems stats)) as [|r l IH]; [done|].
  rewrite filter_cons_False; [done|]. unfold has. simpl.
  rewrite bool_decide_spec. set_solver.
Qed.

(** ** Filter Engine: how the controls combine *)

Section FilterMore.

Implicit Types (allProblems rows : list ProblemRecord) (state : FilterState)
  (p : ProblemRecord) (selected : list string).

Lemma filter_sublist_impl {A} (P Q : A → Prop)
    `{!∀ x, Decision (P x)} `{!∀ x, Decision (Q x)} (l : list A) :
  (∀ x, x ∈ l → P x → Q x) → filter P l `sublist_of` filter Q l.
Proof.
  induction l as [|x l IH]; intros Himpl; [done|].
  rewrite !filter_cons.
  assert (filter P l `sublist_of` filter Q l) as Hsub
    by (apply IH; intros y Hy; apply Himpl; by right).
  destruct (decide (P x)) as [HP|HP].
  - rewrite decide_True by (apply Himpl; [left|done]). by constructor.
  - destruct (decide (Q x)); [by constructor|done].
Qed.

Lemma jsfilter_sublist_impl {A} (cb cb' : A → bool) (arr : list A) :
  (∀ x, x ∈ arr → cb x = true → cb' x = true) →
  jsfilter cb arr `sublist_of` jsfilter cb' arr.
Proof.
  intros Himpl. apply filter_sublist_impl. intros x Hx.
  rewrite !Is_true_true. by apply Himpl.
Qed.

Lemma jsfilter_id {A} (cb : A → bool) (arr : list A) :
  (∀ x, x ∈ arr → cb x = true) → jsfilter cb arr = arr.
Proof.
  unfold jsfilter. induction arr as [|x arr IH]; intros Hall; [done|].
  rewrite filter_cons_True by (apply Is_true_true, Hall; left).
  rewrite IH; [done|]. intros y Hy. apply Hall. by right.
Qed.

Lemma applyFiltersAndRender_stages allProblems state :
  Part000.applyFiltersAndRender allProblems state =
  if bool_decide (length allProblems = 0%nat) then None
  else if truthy (selectedRating state) then Some (stages state allProblems)
  else Some [].
Proof. reflexivity. Qed.

Lemma tagCallback_some state p :
  tagLogic state = OR →
  Part000.tagCallback state p
  = some (λ tag, has (list_to_set (tags p)) tag) (selectedTags state).
Proof. intros Hor. unfold Part000.tagCallback. by rewrite bool_decide_eq_true_2. Qed.

Lemma tagCallback_every state p :
  tagLogic state = AND →
  Part000.tagCallback state p
  = every (λ tag, has (list_to_set (tags p)) tag) (selectedTags state).
Proof.
  intros Hand. unfold Part000.tagCallback.
  by rewrite bool_decide_eq_false_2 by (by rewrite Hand).
Qed.

(** The callback depends on the selected tags as a set. *)
Lemma tagCallback_ext state state' p :
  tagLogic state = tagLogic state' →
  (∀ tag, tag ∈ selectedTags state ↔ tag ∈ selectedTags state') →
  Part000.tagCallback state p = Part000.tagCallback state' p.
Proof.
  intros Hlogic Hset. apply eq_true_iff_eq.
  destruct (tagLogic state) eqn:Hl; symmetry in Hlogic.
  - rewrite !tagCallback_OR by done. by setoid_rewrite Hset.
  - rewrite !tagCallback_AND by done. by setoid_rewrite Hset.
Qed.

Lemma stages_ext state state' allProblems :
  selectedRating state = selectedRating state' →
  tagLogic state = tagLogic state' →
  (∀ tag, tag ∈ selectedTags state ↔ tag ∈ selectedTags state') →
  stages state allProblems = stages state' allProblems.
Proof.
  intros Hr Hlogic Hset. unfold stages; cbv zeta. rewrite Hr.
  assert (bool_decide (0 < length (selectedTags state))%nat
          = bool_decide (0 < length (selectedTags state'))%nat) as ->.
  { apply bool_decide_ext.
    destruct (selectedTags state) as [|t ts], (selectedTags state') as [|t' ts'];
      simpl; [lia| | |lia].
    - specialize (Hset t'). set_solver.
    - specialize (Hset t). set_solver. }
  case_bool_decide; [|done].
  apply jsfilter_ext. intros p _. by apply tagCallback_ext.
Qed.

Lemma applyFiltersAndRender_ext state state' allProblems :
  selectedRating state = selectedRating state' →
  tagLogic state = tagLogic state' →
  (∀ tag, tag ∈ selectedTags state ↔ tag ∈ selectedTags state') →
  Part000.applyFiltersAndRender allProblems state
  = Part000.applyFiltersAndRender allProblems state'.
Proof.
  intros Hr Hlogic Hset. rewrite !applyFiltersAndRender_stages.
  by rewrite (stages_ext state state'), Hr.
Qed.

End FilterMore.

(** X5. The rendered rows depend on the selected tags as a set only: two
    filter states with the same rating, the same logic and the same tags,
    selected in any order, render the same rows. *)
Theorem filter_selected_tags_as_set
    (allProblems : list ProblemRecord) (state state' : FilterState) :
  selectedRating state = selectedRating state' →
  tagLogic state = tagLogic state' →
  (∀ tag, tag ∈ selectedTags state ↔ tag ∈ selectedTags state') →
  ScriptJs.applyFiltersAndRender allProblems state
  = ScriptJs.applyFiltersAndRender allProblems state' ∧
  Part000.applyFiltersAndRender allProblems state
  = Part000.applyFiltersAndRender allProblems state'.
Proof.
  intros Hr Hlogic Hset. rewrite applyFiltersAndRender_agree.
  split; by apply applyFiltersAndRender_ext.
Qed.

Lemma filter_selected_tags_as_set_witness :
  ScriptJs.applyFiltersAndRender [RD]
    {| selectedRating := Some 1300; selectedTags := ["dp"; "math"]; tagLogic := AND |}
  = ScriptJs.applyFiltersAndRender [RD]
    {| selectedRating := Some 1300; selectedTags := ["math"; "dp"]; tagLogic := AND |}.
Proof.
  apply (filter_selected_tags_as_set [RD]
    {| selectedRating := Some 1300; selectedTags := ["dp"; "math"]; tagLogic := AND |}
    {| selectedRating := Some 1300; selectedTags := ["math"; "dp"]; tagLogic := AND |}
    eq_refl eq_refl).
  intros tag. simpl. set_solver.
Defined.

(** X6. Switching the logic from [AND] to [OR] never removes a row: for
    the same catalog, rating and tags, the rows rendered under [AND] are a
    subsequence of the rows rendered under [OR]. *)
Theorem and_rows_within_or_rows
    (allProblems : list ProblemRecord) (r : option Z) (selected : list string) :
  default [] (ScriptJs.applyFiltersAndRender allProblems
                {| selectedRating := r; selectedTags := selected; tagLogic := AND |})
  `sublist_of`
  default [] (ScriptJs.applyFiltersAndRender allProblems
                {| selectedRating := r; selectedTags := selected; tagLogic := OR |}) ∧
  default [] (Part000.applyFiltersAndRender allProblems
                {| selectedRating := r; selectedTags := selected; tagLogic := AND |})
  `sublist_of`
  default [] (Part000.applyFiltersAndRender allProblems
                {| selectedRating := r; selectedTags := selected; tagLogic := OR |}).
Proof.
  rewrite applyFiltersAndRender_agree. rewrite !applyFiltersAndRender_stages.
  cut (stages {| selectedRating := r; selectedTags := selected; tagLogic := AND |}
         allProblems
       `sublist_of`
       stages {| selectedRating := r; selectedTags := selected; tagLogic := OR |}
         allProblems).
  { intros Hsub. simpl. by repeat case_match. }
  unfold stages; simpl. case_bool_decide as Hsel; [|done].
  apply jsfilter_sublist_impl. intros p _.
  rewrite tagCallback_AND, tagCallback_OR by done. simpl.
  intros Hall. destruct selected as [|tag selected]; [simpl in Hsel; lia|].
  exists tag. split; [left|apply Hall; left].
Qed.

(** X7. With at most one tag selected the logic toggle has no effect on
    the rendered rows. *)
Theorem logic_irrelevant_below_two_tags
    (allProblems : list ProblemRecord) (r : option Z) (selected : list string) :
  (length selected ≤ 1)%nat →
  ScriptJs.applyFiltersAndRender allProblems
    {| selectedRating := r; selectedTags := selected; tagLogic := AND |}
  = ScriptJs.applyFiltersAndRender allProblems
    {| selectedRating := r; selectedTags := selected; tagLogic := OR |} ∧
  Part000.applyFiltersAndRender allProblems
    {| selectedRating := r; selectedTags := selected; tagLogic := AND |}
  = Part000.applyFiltersAndRender allProblems
    {| selectedRating := r; selectedTags := selected; tagLogic := OR |}.
Proof.
  intros Hlen. rewrite applyFiltersAndRender_agree.
  rewrite !applyFiltersAndRender_stages.
  cut (stages {| selectedRating := r; selectedTags := selected; tagLogic := AND |}
         allProblems
       = stages {| selectedRating := r; selectedTags := selected; tagLogic := OR |}
         allProblems).
  { intros ->. done. }
  unfold stages; simpl. case_bool_decide; [|done].
  apply jsfilter_ext. intros p _. apply eq_true_iff_eq.
  rewrite tagCallback_AND, tagCallback_OR by done. simpl.
  destruct selected as [|tag [|tag' selected]]; [simpl in *; lia| |simpl in *; lia].
  setoid_rewrite list_elem_of_singleton. naive_solver.
Qed.

Lemma logic_irrelevant_below_two_tags_witness :
  ScriptJs.applyFiltersAndRender [RD]
    {| selectedRating := Some 1300; selectedTags := ["math"]; tagLogic := AND |}
  = ScriptJs.applyFiltersAndRender [RD]
    {| selectedRating := Some 1300; selectedTags := ["math"]; tagLogic := OR |}.
Proof.
  apply (logic_irrelevant_below_two_tags [RD] (Some 1300) ["math"]).
  simpl. lia.
Defined.

(** X8. Selecting more tags narrows the rows under [AND] and, once a tag
    is selected, widens them under [OR]: if every tag of [selected] is
    also in [selected'], the [AND] rows for [selected'] are a subsequence
    of the [AND] rows for [selected], and for a non-empty [selected] the
    [OR] rows for [selected] are a subsequence of the [OR] rows for
    [selected']. *)
Theorem more_tags_narrow_and_widen_or
    (engine : list ProblemRecord → FilterState → option (list ProblemRecord))
    (allProblems : list ProblemRecord) (r : option Z)
    (selected selected' : list string) :
  engine = ScriptJs.applyFiltersAndRender ∨ engine = Part000.applyFiltersAndRender →
  (∀ tag, tag ∈ selected → tag ∈ selected') →
  default [] (engine allProblems
                {| selectedRating := r; selectedTags := selected'; tagLogic := AND |})
  `sublist_of`
  default [] (engine allProblems
                {| selectedRating := r; selectedTags := selected; tagLogic := AND |}) ∧
  (selected ≠ [] →
   default [] (engine allProblems
                 {| selectedRating := r; selectedTags := selected; tagLogic := OR |})
   `sublist_of`
   default [] (engine allProblems
                 {| selectedRating := r; selectedTags := selected'; tagLogic := OR |})).
Proof.
  intros Hengine Hsub.
  assert (engine = Part000.applyFiltersAndRender) as ->
    by (destruct Hengine as [->| ->]; [apply applyFiltersAndRender_agree|done]).
  rewrite !applyFiltersAndRender_stages. split.
  - cut (stages {| selectedRating := r; selectedTags := selected'; tagLogic := AND |}
           allProblems
         `sublist_of`
         stages {| selectedRating := r; selectedTags := selected; tagLogic := AND |}
           allProblems).
    { intros Hs. simpl. by repeat case_match. }
    unfold stages; simpl.
    destruct (bool_decide (0 < length selected')%nat) eqn:Hsel'.
    + destruct (bool_decide (0 < length selected)%nat) eqn:Hsel.
      * apply jsfilter_sublist_impl. intros p _.
        rewrite !tagCallback_AND by done. simpl. naive_solver.
      * apply sublist_filter; apply _.
    + apply bool_decide_eq_false in Hsel'.
      destruct selected' as [|t' ts']; [|simpl in Hsel'; lia].
      destruct selected as [|t ts]; [done|].
      specialize (Hsub t). set_solver.
  - intros Hne.
    cut (stages {| selectedRating := r; selectedTags := selected; tagLogic := OR |}
           allProblems
         `sublist_of`
         stages {| selectedRating := r; selectedTags := selected'; tagLogic := OR |}
           allProblems).
    { intros Hs. simpl. by repeat case_match. }
    unfold stages; simpl.
    rewrite bool_decide_eq_true_2 by (destruct selected; [done|simpl; lia]).
    rewrite bool_decide_eq_true_2.
    2:{ destruct selected as [|t ts]; [done|].
        destruct selected'; [specialize (Hsub t); set_solver|simpl; lia]. }
    apply jsfilter_sublist_impl. intros p _.
    rewrite !tagCallback_OR by done. simpl. naive_solver.
Qed.

Lemma more_tags_narrow_and_widen_or_witness :
  default [] (ScriptJs.applyFiltersAndRender [RD]
                {| selectedRating := Some 1300; selectedTags := ["dp"; "math"];
                   tagLogic := AND |})
  `sublist_of`
  default [] (ScriptJs.applyFiltersAndRender [RD]
                {| selectedRating := Some 1300; selectedTags := ["dp"];
                   tagLogic := AND |}).
Proof.
  apply (more_tags_narrow_and_widen_or ScriptJs.applyFiltersAndRender [RD]
           (Some 1300) ["dp"] ["dp"; "math"] (or_introl eq_refl)).
  intros tag. set_solver.
Defined.

(** X9. Filtering is idempotent on its own output: when rows are rendered
    and they are taken as the catalog, the same filter state renders
    exactly those rows again. *)
Theorem filter_idempotent_on_output
    (engine : list ProblemRecord → FilterState → option (list ProblemRecord))
    (allProblems rows : list ProblemRecord) (state : FilterState) :
  engine = ScriptJs.applyFiltersAndRender ∨ engine = Part000.applyFiltersAndRender →
  engine allProblems state = Some rows →
  rows ≠ [] →
  engine rows state = Some rows.
Proof.
  intros Hengine Hrows Hne.
  assert (engine = Part000.applyFiltersAndRender) as ->
    by (destruct Hengine as [->| ->]; [apply applyFiltersAndRender_agree|done]).
  rewrite applyFiltersAndRender_stages in Hrows |- *.
  rewrite bool_decide_eq_false_2 by (by destruct rows).
  case_bool_decide; [done|].
  destruct (truthy (selectedRating state)); [|congruence].
  f_equal. injection Hrows as <-.
  unfold stages; cbv zeta. case_bool_decide.
  - rewrite (jsfilter_id _ (jsfilter _ (jsfilter _ _))).
    + apply jsfilter_id. intros p. rewrite !jsfilter_elem_of. tauto.
    + intros p. rewrite !jsfilter_elem_of. tauto.
  - apply jsfilter_id. intros p. rewrite !jsfilter_elem_of. tauto.
Qed.

Lemma filter_idempotent_on_output_witness :
  Part000.applyFiltersAndRender [RD]
    {| selectedRating := Some 1300; selectedTags := ["dp"]; tagLogic := OR |}
  = Some [RD].
Proof.
  apply (filter_idempotent_on_output Part000.applyFiltersAndRender
           [RD; {| fields := P1; solvedCount := 3 |}] [RD]
           {| selectedRating := Some 1300; selectedTags := ["dp"]; tagLogic := OR |}
           (or_intror eq_refl)).
  - vm_compute. reflexivity.
  - discriminate.
Defined.

(** ** The filter controls *)

Section Controls.

Implicit Types (state : FilterState) (e : UiEvent).

Lemma listener_agree : ScriptJs_listener = Part000_listener.
Proof. reflexivity. Qed.

Lemma wellFormed_initial : wellFormed initialState.
Proof.
  split_and!; [by left|constructor|]. by intros ? ?%elem_of_nil.
Qed.

Lemma wellFormed_listener state e :
  offered e → wellFormed state → wellFormed (Part000_listener state e).
Proof.
  intros He (Hr & Hnd & Htags).
  destruct e as [r|tag|checked]; unfold wellFormed; simpl in *.
  - split_and!; [|done..]. case_bool_decide; [by left|right; eauto].
  - split_and!; [done|..]; case_bool_decide as Hin.
    + by apply NoDup_filter.
    + apply NoDup_app. split_and!; [done| |apply NoDup_singleton].
      intros x Hx ->%list_elem_of_singleton. done.
    + intros t [_ Ht]%list_elem_of_filter. by apply Htags.
    + intros t [Ht| ->%list_elem_of_singleton]%elem_of_app; [by apply Htags|done].
  - done.
Qed.

Lemma wellFormed_foldl state (events : list UiEvent) :
  Forall offered events → wellFormed state →
  wellFormed (foldl Part000_listener state events).
Proof.
  intros Hev. revert state.
  induction Hev as [|e events He Hev IH]; intros state Hwf; [done|].
  simpl. by apply IH, wellFormed_listener.
Qed.

Lemma ratings_nonzero (r : Z) : r ∈ Part000.ratings → r ≠ 0.
Proof.
  unfold Part000.ratings. rewrite !elem_of_cons, elem_of_nil. lia.
Qed.

Lemma tagClick_twice (tag : string) state :
  ∀ t, t ∈ selectedTags (Part000.tagClick tag (Part000.tagClick tag state))
       ↔ t ∈ selectedTags state.
Proof.
  intros t. unfold Part000.tagClick; simpl.
  destruct (decide (tag ∈ selectedTags state)) as [Hin|Hin].
  - rewrite (bool_decide_eq_true_2 (tag ∈ selectedTags state)) by done.
    rewrite bool_decide_eq_false_2.
    2:{ rewrite list_elem_of_filter. tauto. }
    rewrite elem_of_app, list_elem_of_filter, list_elem_of_singleton.
    destruct (decide (t = tag)) as [->|]; tauto.
  - rewrite (bool_decide_eq_false_2 (tag ∈ selectedTags state)) by done.
    rewrite bool_decide_eq_true_2 by set_solver.
    rewrite list_elem_of_filter, elem_of_app, list_elem_of_singleton.
    destruct (decide (t = tag)) as [->|]; tauto.
Qed.

End Controls.

(** X10. Whatever the user clicks, in any order, starting from the state
    of a freshly loaded page: the selected rating is unset or one of the
    seven rating buttons, no tag is selected twice, and every selected tag
    is a tag button. So the test [if (state.selectedRating)] of the filter
    engine fails exactly when no rating is selected. *)
Theorem controls_keep_state_well_formed
    (listener : FilterState → UiEvent → FilterState) (events : list UiEvent) :
  listener = ScriptJs_listener ∨ listener = Part000_listener →
  Forall offered events →
  let state := foldl listener initialState events in
  (selectedRating state = None ∨
   ∃ r, r ∈ Part000.ratings ∧ selectedRating state = Some r) ∧
  NoDup (selectedTags state) ∧
  (∀ tag, tag ∈ selectedTags state → tag ∈ Part000.TAGS) ∧
  truthy (selectedRating state) = bool_decide (selectedRating state ≠ None).
Proof.
  intros Hl Hev state.
  assert (listener = Part000_listener) as Heq
    by (destruct Hl as [->| ->]; [apply listener_agree|done]).
  subst state. rewrite Heq.
  destruct (wellFormed_foldl initialState events Hev wellFormed_initial)
    as (Hr & Hnd & Htags).
  split_and!; [done..|].
  destruct Hr as [->|(r & Hin & ->)]; [done|].
  simpl. apply ratings_nonzero in Hin.
  by destruct (Z.eqb_spec r 0).
Qed.

Lemma controls_keep_state_well_formed_witness :
  truthy (selectedRating
    (foldl ScriptJs_listener initialState
       [RatingClick 800; TagClick "dp"; LogicChange true; RatingClick 1200;
        TagClick "dp"; TagClick "math"]))
  = bool_decide (selectedRating
    (foldl ScriptJs_listener initialState
       [RatingClick 800; TagClick "dp"; LogicChange true; RatingClick 1200;
        TagClick "dp"; TagClick "math"]) ≠ None).
Proof.
  apply (controls_keep_state_well_formed ScriptJs_listener
    [RatingClick 800; TagClick "dp"; LogicChange true; RatingClick 1200;
     TagClick "dp"; TagClick "math"] (or_introl eq_refl)).
  repeat constructor; simpl; unfold Part000.ratings, Part000.TAGS; set_solver.
Defined.

(** X11. Clicking the same tag button twice leaves the view as it was:
    the set of selected tags is the same (the tag may have moved to the
    end of the insertion order) and the engine renders the same rows. *)
Theorem tag_click_twice_restores_view
    (allProblems : list ProblemRecord) (state : FilterState) (tag : string) :
  (∀ t, t ∈ selectedTags (ScriptJs.tagClick tag (ScriptJs.tagClick tag state))
        ↔ t ∈ selectedTags state) ∧
  (∀ t, t ∈ selectedTags (Part000.tagClick tag (Part000.tagClick tag state))
        ↔ t ∈ selectedTags state) ∧
  ScriptJs.applyFiltersAndRender allProblems
    (ScriptJs.tagClick tag (ScriptJs.tagClick tag state))
  = ScriptJs.applyFiltersAndRender allProblems state ∧
  Part000.applyFiltersAndRender allProblems
    (Part000.tagClick tag (Part000.tagClick tag state))
  = Part000.applyFiltersAndRender allProblems state.
Proof.
  rewrite applyFiltersAndRender_agree.
  change ScriptJs.tagClick with Part000.tagClick.
  split_and!; try apply tagClick_twice.
  - apply applyFiltersAndRender_ext; [done..|apply tagClick_twice].
  - apply applyFiltersAndRender_ext; [done..|apply tagClick_twice].
Qed.

(** X12. At most one rating is selected, and the buttons toggle: a click
    on the selected rating unsets it, so that on a non-empty catalog the
    engine renders no row; a click on any other rating selects that
    rating in place of the old one. *)
Theorem rating_click_toggles
    (allProblems : list ProblemRecord) (state : FilterState) (r : Z) :
  allProblems ≠ [] →
  (selectedRating state = Some r →
   selectedRating (ScriptJs.ratingClick r state) = None ∧
   selectedRating (Part000.ratingClick r state) = None ∧
   ScriptJs.applyFiltersAndRender allProblems (ScriptJs.ratingClick r state) = Some [] ∧
   Part000.applyFiltersAndRender allProblems (Part000.ratingClick r state) = Some []) ∧
  (selectedRating state ≠ Some r →
   selectedRating (ScriptJs.ratingClick r state) = Some r ∧
   selectedRating (Part000.ratingClick r state) = Some r) ∧
  selectedTags (Part000.ratingClick r state) = selectedTags state ∧
  tagLogic (Part000.ratingClick r state) = tagLogic state.
Proof.
  intros Hne. rewrite applyFiltersAndRender_agree.
  change ScriptJs.ratingClick with Part000.ratingClick.
  split_and!; [|by intros ?; simpl; rewrite bool_decide_eq_false_2|done..].
  intros Hsel.
  assert (selectedRating (Part000.ratingClick r state) = None) as Hnone
    by (simpl; by rewrite bool_decide_eq_true_2).
  split_and!; [done..| |];
    (rewrite applyFiltersAndRender_stages, Hnone;
     by rewrite bool_decide_eq_false_2 by (by destruct allProblems)).
Qed.

Lemma rating_click_toggles_witness :
  ScriptJs.applyFiltersAndRender [RD]
    (ScriptJs.ratingClick 1300
       {| selectedRating := Some 1300; selectedTags := []; tagLogic := OR |})
  = Some [].
Proof.
  destruct (rating_click_toggles [RD]
              {| selectedRating := Some 1300; selectedTags := []; tagLogic := OR |}
              1300) as ((_ & _ & Hrows & _) & _); [discriminate|reflexivity|].
  exact Hrows.
Defined.

(** ** The rendered table *)

Section TableRows.

Implicit Types (problems : list ProblemRecord) (m : gmap string Status)
  (p : ProblemRecord).

Lemma tableRow_agree : ScriptJs.tableRow = Part000.tableRow.
Proof. reflexivity. Qed.

Lemma tableRow_status m i p :
  row_status (Part000.tableRow m i p) =
  match m !! problemId p with
  | Some SOLVED => StatusSolved
  | Some ATTEMPTED => StatusAttempted
  | None => StatusUnsolved
  end.
Proof.
  unfold Part000.tableRow; simpl.
  destruct (m !! problemId p) as [[]|]; by repeat case_bool_decide.
Qed.

Lemma renderProblemTable_Rows problems m :
  problems ≠ [] →
  ScriptJs.renderProblemTable problems m = Rows (imap (Part000.tableRow m) problems) ∧
  Part000.renderProblemTable problems m = Rows (imap (Part000.tableRow m) problems).
Proof.
  intros Hne. unfold ScriptJs.renderProblemTable, Part000.renderProblemTable.
  rewrite bool_decide_eq_false_2 by (by destruct problems). done.
Qed.

End TableRows.

(** X13. After a lookup the table of a non-empty array of problems has one
    row per problem, in the order of the array and numbered from 1; the
    row of a problem shows its name and solved count, and its status cell
    says "solved" iff the user has a submission with verdict [OK] for the
    problem's identity, "tried" iff the user has submissions for it but
    none with verdict [OK], and "unsolved" iff the user has none. *)
Theorem table_rows_reflect_submissions
    (problems : list ProblemRecord) (result : list Submission) :
  problems ≠ [] →
  ∃ rows,
    ScriptJs.renderProblemTable problems (ScriptJs.fetchUserStatus result) = Rows rows ∧
    Part000.renderProblemTable problems (Part000.fetchUserStatus result) = Rows rows ∧
    length rows = length problems ∧
    ∀ i (p : ProblemRecord), problems !! i = Some p →
      ∃ row, rows !! i = Some row ∧
        row_number row = S i ∧
        row_name row = name p ∧
        row_solvedCount row = solvedCount p ∧
        (row_status row = StatusSolved ↔
           ∃ sub, sub ∈ result ∧ problemId (problem sub) = problemId p ∧
                  verdict sub = "OK") ∧
        (row_status row = StatusAttempted ↔
           (∃ sub, sub ∈ result ∧ problemId (problem sub) = problemId p) ∧
           ¬ ∃ sub, sub ∈ result ∧ problemId (problem sub) = problemId p ∧
                    verdict sub = "OK") ∧
        (row_status row = StatusUnsolved ↔
           ∀ sub, sub ∈ result → problemId (problem sub) ≠ problemId p).
Proof.
  intros Hne. rewrite fetchUserStatus_agree.
  destruct (renderProblemTable_Rows problems (Part000.fetchUserStatus result) Hne)
    as [-> ->].
  eexists. split_and!; [done..|apply length_imap|].
  intros i p Hp. eexists. split.
  { rewrite list_lookup_imap, Hp. done. }
  rewrite tableRow_status.
  rewrite <-fetchUserStatus_ATTEMPTED, <-fetchUserStatus_SOLVED,
    <-fetchUserStatus_None.
  split_and!; [simpl; lia|done..| | |];
    destruct (Part000.fetchUserStatus result !! problemId p) as [[]|];
    split; congruence.
Qed.

Lemma table_rows_reflect_submissions_witness :
  ∃ rows,
    ScriptJs.renderProblemTable [RD]
      (ScriptJs.fetchUserStatus [mkSubmission PD "OK"]) = Rows rows ∧
    length rows = 1%nat.
Proof.
  destruct (table_rows_reflect_submissions [RD] [mkSubmission PD "OK"])
    as (rows & Hrows & _ & Hlen & _); [discriminate|].
  exists rows. split; [exact Hrows|exact Hlen].
Defined.

(** ** Analytics Aggregator: what it counts and what it ignores *)

Section AnalyticsMore.

Implicit Types (sub : Submission) (l : list Submission) (k : string)
  (p : Problem) (m : list (string * Problem)).

Lemma firstAccepted_is_Some l k :
  is_Some (firstAccepted l k) ↔ ∃ sub, sub ∈ l ∧ acceptedFor k sub.
Proof.
  unfold firstAccepted. rewrite fmap_is_Some. split.
  - intros [[i sub] (Hi%list_elem_of_lookup_2 & Hacc & _)%list_find_Some]. eauto.
  - intros (sub & Hin & Hacc). by eapply list_find_elem_of.
Qed.

Lemma solvedProblems_keys_SOLVED l k :
  k ∈ (Part000.solvedProblems l).*1 ↔
  Part000.fetchUserStatus l !! k = Some SOLVED.
Proof.
  rewrite solvedProblems_keys, firstAccepted_is_Some, fetchUserStatus_SOLVED.
  unfold acceptedFor. naive_solver.
Qed.

Lemma solvedStep_not_OK m sub :
  verdict sub ≠ "OK" → Part000.solvedStep m sub = m.
Proof. intros Hok%isOK_false. unfold Part000.solvedStep. by rewrite Hok. Qed.

Lemma solvedProblems_filter_OK l :
  Part000.solvedProblems (filter (λ sub, verdict sub = "OK") l)
  = Part000.solvedProblems l.
Proof.
  unfold Part000.solvedProblems, forEach. generalize (@nil (string * Problem)).
  induction l as [|sub l IH]; intros m; [done|].
  rewrite filter_cons. case_decide as Hok; simpl; [apply IH|].
  by rewrite IH, solvedStep_not_OK.
Qed.

(** Two count objects without a zero bucket that agree on every count. *)
Lemma counts_eq `{Countable K} (c c' : gmap K nat) :
  map_Forall (λ _ n, 0 < n)%nat c → map_Forall (λ _ n, 0 < n)%nat c' →
  (∀ i : K, default 0%nat (c !! i) = default 0%nat (c' !! i)) → c = c'.
Proof.
  intros Hc Hc' Heq. apply map_eq. intros i. specialize (Heq i).
  destruct (c !! i) as [n|] eqn:Hk, (c' !! i) as [n'|] eqn:Hk'; simpl in Heq.
  - by subst.
  - apply Hc in Hk. lia.
  - apply Hc' in Hk'. lia.
  - done.
Qed.

Lemma ratingAnalysis_Permutation m m' :
  m ≡ₚ m' → Part000.ratingAnalysis m = Part000.ratingAnalysis m'.
Proof.
  intros Hperm. apply counts_eq; [apply ratingAnalysis_positive..|].
  intros r. unfold Part000.ratingAnalysis.
  by rewrite !ratingAnalysis_from, Hperm.
Qed.

(** When the accepted submissions of one identity all carry the same
    problem object, membership in the solved set does not depend on which
    of them came first. *)
Lemma solvedProblems_elem_of_consistent l k p :
  (∀ s1 s2, s1 ∈ l → s2 ∈ l → verdict s1 = "OK" → verdict s2 = "OK" →
     problemId (problem s1) = problemId (problem s2) → problem s1 = problem s2) →
  (k, p) ∈ Part000.solvedProblems l ↔
  ∃ sub, sub ∈ l ∧ acceptedFor k sub ∧ problem sub = p.
Proof.
  intros Hcons. rewrite solvedProblems_elem_of. unfold firstAccepted. split.
  - intros ([i sub] & (Hi%list_elem_of_lookup_2 & Hacc & _)%list_find_Some & ->)%fmap_Some.
    eauto.
  - intros (sub & Hin & Hacc & <-).
    destruct (list_find_elem_of (acceptedFor k) l sub Hin Hacc) as [[i x] Hfind].
    rewrite Hfind. simpl. f_equal.
    apply list_find_Some in Hfind as (Hi%list_elem_of_lookup_2 & [Hok Hid] & _).
    destruct Hacc as [Hok' Hid']. apply Hcons; congruence.
Qed.

End AnalyticsMore.

(** X14. The analytics and the table agree on what is solved: an identity
    has an entry in the solved set of [generateAnalytics] iff the status
    map built from the same submissions holds [SOLVED] for it, and the
    solved set has as many entries as the status map has [SOLVED]
    entries. *)
Theorem solved_set_matches_status_map (submissions : list Submission) :
  (∀ k, k ∈ (Part000.solvedProblems submissions).*1 ↔
        Part000.fetchUserStatus submissions !! k = Some SOLVED) ∧
  length (Part000.solvedProblems submissions)
  = size (filter (λ entry : string * Status, entry.2 = SOLVED)
            (Part000.fetchUserStatus submissions)).
Proof.
  split; [apply solvedProblems_keys_SOLVED|].
  rewrite <-(length_fmap fst).
  rewrite <-(size_list_to_set (C := gset string)) by apply solvedProblems_NoDup.
  rewrite <-size_dom. f_equal. apply set_eq. intros k.
  rewrite elem_of_list_to_set, solvedProblems_keys_SOLVED, elem_of_dom.
  unfold is_Some. setoid_rewrite map_lookup_filter_Some. simpl. naive_solver.
Qed.

(** X15. Only accepted submissions reach the analytics: dropping every
    submission whose verdict is not [OK] changes neither the solved set
    nor what [generateAnalytics] shows, and the solved set never has more
    entries than there are accepted submissions. *)
Theorem analytics_ignore_rejected (submissions : list Submission) :
  let accepted := filter (λ sub, verdict sub = "OK") submissions in
  Part000.solvedProblems accepted = Part000.solvedProblems submissions ∧
  Part000.generateAnalytics accepted = Part000.generateAnalytics submissions ∧
  (length (Part000.solvedProblems submissions) ≤ length accepted)%nat.
Proof.
  intros accepted. subst accepted.
  split_and!; [apply solvedProblems_filter_OK| |].
  - unfold Part000.generateAnalytics. by rewrite solvedProblems_filter_OK.
  - rewrite <-solvedProblems_filter_OK.
    induction (filter _ submissions) as [|sub l IH] using rev_ind; [done|].
    rewrite solvedProblems_snoc, length_app. unfold Part000.solvedStep; simpl.
    repeat case_match; rewrite ?length_app; simpl; lia.
Qed.

(** ** Charts *)

Section Charts.

Context {A : Type}.
Implicit Types (compare : A → A → Z) (le : relation A) (l : list A).

Lemma sortInsert_Permutation compare x l : sortInsert compare x l ≡ₚ x :: l.
Proof.
  induction l as [|y l IH]; [done|]. simpl.
  destruct (compare x y <? 0); [done|].
  rewrite IH. apply Permutation_swap.
Qed.

Lemma jssort_Permutation compare l : jssort compare l ≡ₚ l.
Proof.
  unfold jssort.
  cut (∀ acc, foldl (λ sorted x, sortInsert compare x sorted) acc l ≡ₚ acc ++ l).
  { intros H. apply H. }
  induction l as [|x l IH]; intros acc; simpl; [by rewrite app_nil_r|].
  rewrite IH, sortInsert_Permutation. simpl. apply Permutation_middle.
Qed.

(** The comparator decides a transitive order [le]. *)
Lemma sortInsert_StronglySorted compare le `{!Transitive le} x l :
  (∀ a b, compare a b < 0 → le a b) →
  (∀ a b, ¬ compare a b < 0 → le b a) →
  StronglySorted le l → StronglySorted le (sortInsert compare x l).
Proof.
  intros Hlt Hge. induction 1 as [|y l Hl IH Hy]; simpl.
  { repeat constructor. }
  destruct (Z.ltb_spec (compare x y) 0) as [Hxy|Hxy].
  - constructor; [by constructor|]. constructor; [by apply Hlt|].
    eapply Forall_impl; [done|]. intros z Hz. etrans; [by apply Hlt|done].
  - constructor; [done|].
    rewrite sortInsert_Permutation. constructor; [apply Hge; lia|done].
Qed.

Lemma jssort_StronglySorted compare le `{!Transitive le} l :
  (∀ a b, compare a b < 0 → le a b) →
  (∀ a b, ¬ compare a b < 0 → le b a) →
  StronglySorted le (jssort compare l).
Proof.
  intros Hlt Hge. unfold jssort.
  cut (∀ acc, StronglySorted le acc →
         StronglySorted le (foldl (λ sorted x, sortInsert compare x sorted) acc l)).
  { intros H. apply H. constructor. }
  induction l as [|x l IH]; intros acc Hacc; [done|].
  simpl. by apply IH, sortInsert_StronglySorted.
Qed.

End Charts.

Section ChartTotals.

Lemma foldl_sum (entries : list (string * nat)) (n : nat) :
  foldl (λ sum (entry : string * nat), sum + entry.2)%nat n entries
  = (n + sum_list_with snd entries)%nat.
Proof.
  revert n. induction entries as [|e entries IH]; intros n; simpl; [lia|].
  rewrite IH. lia.
Qed.

Lemma StronglySorted_strict (l : list (Z * nat)) :
  NoDup l.*1 → StronglySorted (λ x y, x.1 ≤ y.1) l →
  StronglySorted (λ x y, x.1 < y.1) l.
Proof.
  intros Hnd Hs. induction Hs as [|x l Hl IH Hx]; [constructor|].
  rewrite fmap_cons in Hnd. apply NoDup_cons in Hnd as [Hnotin Hnd].
  constructor; [by apply IH|].
  apply Forall_forall. intros y Hy.
  pose proof (proj1 (Forall_forall _ _) Hx y Hy) as Hle. simpl in Hle.
  destruct (decide (x.1 = y.1)) as [Heq|Hne]; [|lia].
  destruct Hnotin. rewrite Heq. apply list_elem_of_fmap. eauto.
Qed.

(** The sum of the buckets of a count object grows by one with every
    increment. *)
Lemma total_increment `{Countable K} (c : gmap K nat) (i : K) :
  sum_list_with snd (map_to_list (<[i := (default 0 (c !! i) + 1)%nat]> c))
  = (sum_list_with snd (map_to_list c) + 1)%nat.
Proof.
  destruct (c !! i) as [n|] eqn:Hi; simpl.
  - rewrite <-(insert_delete_eq c).
    rewrite map_to_list_insert by apply lookup_delete_eq.
    rewrite <-(insert_delete_id c i n) at 2 by done.
    rewrite (map_to_list_insert (delete i c)) by apply lookup_delete_eq.
    simpl. lia.
  - rewrite map_to_list_insert by done. simpl. lia.
Qed.

Lemma ratingAnalysis_total (m : list (string * Problem)) :
  sum_list_with snd (map_to_list (Part000.ratingAnalysis m))
  = length (filter (λ entry : string * Problem, truthy (rating entry.2) = true) m).
Proof.
  unfold Part000.ratingAnalysis.
  cut (∀ rc : gmap Z nat,
         sum_list_with snd (map_to_list (forEach Part000.ratingStep m rc))
         = (sum_list_with snd (map_to_list rc)
            + length (filter (λ entry : string * Problem,
                                truthy (rating entry.2) = true) m))%nat).
  { intros ->. by rewrite map_to_list_empty. }
  induction m as [|entry m IH]; intros rc; simpl; [lia|].
  rewrite IH, filter_cons. unfold Part000.ratingStep.
  destruct (truthy (rating entry.2)) eqn:Ht.
  - rewrite decide_True by done.
    destruct (rating entry.2) as [r|]; [|done].
    rewrite total_increment. simpl. lia.
  - rewrite decide_False by done. lia.
Qed.

End ChartTotals.

Section ChartShapes.

Implicit Types (tagData : list (string * nat)) (ratingData : list (Z * nat)).

Lemma byCount_StronglySorted tagData :
  StronglySorted (λ x y : string * nat, y.2 ≤ x.2)%nat
    (jssort (λ x y : string * nat, Z.of_nat y.2 - Z.of_nat x.2) tagData).
Proof.
  apply jssort_StronglySorted.
  - intros x y z ? ?. lia.
  - intros a b. lia.
  - intros a b. lia.
Qed.

Lemma byRating_StronglySorted ratingData :
  StronglySorted (λ x y : Z * nat, x.1 ≤ y.1)
    (jssort (λ x y : Z * nat, x.1 - y.1) ratingData).
Proof.
  apply jssort_StronglySorted.
  - intros x y z ? ?. lia.
  - intros a b. lia.
  - intros a b. lia.
Qed.

(** The pie chart as the ten largest entries followed by the rest,
    summed. *)
Lemma renderTagsPieChart_shape tagData :
  let sortedTags :=
    jssort (λ x y : string * nat, Z.of_nat y.2 - Z.of_nat x.2) tagData in
  Part000.renderTagsPieChart tagData
  = (take 10 sortedTags ++
     (if decide (0 < sum_list_with snd (drop 10 sortedTags))%nat
      then [("Other", sum_list_with snd (drop 10 sortedTags))] else []))%list.
Proof.
  intros sortedTags. unfold Part000.renderTagsPieChart; cbv zeta.
  fold sortedTags. rewrite foldl_sum. simpl.
  case_bool_decide; [by rewrite decide_True|].
  rewrite decide_False by done. by rewrite app_nil_r.
Qed.

Lemma positive_sum (entries : list (string * nat)) :
  Forall (λ entry, 0 < entry.2)%nat entries →
  (0 < sum_list_with snd entries)%nat ↔ entries ≠ [].
Proof.
  intros Hpos. destruct Hpos as [|e entries He _]; simpl; [split; [lia|done]|].
  split; [done|lia].
Qed.

End ChartShapes.

Lemma renderTagsPieChart_split (tagData : list (string * nat)) :
  ∃ top rest,
    tagData ≡ₚ top ++ rest ∧
    length top = (length tagData `min` 10)%nat ∧
    StronglySorted (λ x y : string * nat, y.2 ≤ x.2)%nat (top ++ rest) ∧
    Part000.renderTagsPieChart tagData
    = (top ++ (if decide (0 < sum_list_with snd rest)%nat
               then [("Other", sum_list_with snd rest)] else []))%list ∧
    sum_list_with snd (Part000.renderTagsPieChart tagData)
    = sum_list_with snd tagData ∧
    (length (Part000.renderTagsPieChart tagData) ≤ 11)%nat.
Proof.
  set (sortedTags :=
    jssort (λ x y : string * nat, Z.of_nat y.2 - Z.of_nat x.2) tagData).
  assert (sortedTags ≡ₚ tagData) as Hperm by apply jssort_Permutation.
  exists (take 10 sortedTags), (drop 10 sortedTags).
  rewrite take_drop, renderTagsPieChart_shape. fold sortedTags.
  split_and!.
  - done.
  - rewrite length_take, (Permutation_length Hperm). lia.
  - apply byCount_StronglySorted.
  - done.
  - trans (sum_list_with snd (take 10 sortedTags ++ drop 10 sortedTags));
      [|by rewrite take_drop, Hperm].
    rewrite !sum_list_with_app. case_decide; simpl; lia.
  - rewrite length_app, length_take.
    case_decide; cbn [length]; lia.
Qed.

(** X17. The pie chart shows the ten largest tag counts, largest first,
    and folds all the others into one last slice labelled "Other", which
    is present only when the others add up to more than nothing. No count
    is lost: the slices add up to the sum of all the counts. There are at
    most eleven slices. *)
Theorem pie_chart_top_ten_and_other (tagData : list (string * nat)) :
  ∃ top rest,
    tagData ≡ₚ top ++ rest ∧
    length top = (length tagData `min` 10)%nat ∧
    StronglySorted (λ x y : string * nat, y.2 ≤ x.2)%nat (top ++ rest) ∧
    Part000.renderTagsPieChart tagData
    = (top ++ (if decide (0 < sum_list_with snd rest)%nat
               then [("Other", sum_list_with snd rest)] else []))%list ∧
    sum_list_with snd (Part000.renderTagsPieChart tagData)
    = sum_list_with snd tagData ∧
    (length (Part000.renderTagsPieChart tagData) ≤ 11)%nat.
Proof. apply renderTagsPieChart_split. Qed.

(** The bar chart is the same for every listing of the same counts. *)
Lemma renderRatingsBarChart_Permutation (ratingData ratingData' : list (Z * nat)) :
  NoDup ratingData.*1 → ratingData ≡ₚ ratingData' →
  Part000.renderRatingsBarChart ratingData
  = Part000.renderRatingsBarChart ratingData'.
Proof.
  intros Hnd Hperm. unfold Part000.renderRatingsBarChart.
  apply (StronglySorted_unique_strong (λ x y : Z * nat, x.1 < y.1)).
  - intros x1 x2 _ _ ? ?. lia.
  - apply StronglySorted_strict; [|apply byRating_StronglySorted].
    by rewrite jssort_Permutation.
  - apply StronglySorted_strict; [|apply byRating_StronglySorted].
    by rewrite jssort_Permutation, <-Hperm.
  - by rewrite !jssort_Permutation.
Qed.

(** X16. When the accepted submissions of one problem identity all carry
    the same problem object, reordering the submission list changes only
    the order in which the solved problems are collected: every
    permutation gives the same solved problems and the same "no data"
    signal, and, the bars being sorted by rating, the same bar chart of
    ratings from any listing of the rating counts. (The pie chart of tags
    is left out: it lists equal counts in the order in which the tags
    were first met.) *)
Theorem analytics_order_irrelevant_when_consistent
    (submissions submissions' : list Submission) :
  (∀ s1 s2, s1 ∈ submissions → s2 ∈ submissions →
     verdict s1 = "OK" → verdict s2 = "OK" →
     problemId (problem s1) = problemId (problem s2) → problem s1 = problem s2) →
  submissions ≡ₚ submissions' →
  Part000.solvedProblems submissions ≡ₚ Part000.solvedProblems submissions' ∧
  (Part000.generateAnalytics submissions = NoData
   ↔ Part000.generateAnalytics submissions' = NoData) ∧
  ∀ ratingData ratingData' : list (Z * nat),
    ratingData ≡ₚ
      map_to_list (Part000.ratingAnalysis (Part000.solvedProblems submissions)) →
    ratingData' ≡ₚ
      map_to_list (Part000.ratingAnalysis (Part000.solvedProblems submissions')) →
    Part000.renderRatingsBarChart ratingData
    = Part000.renderRatingsBarChart ratingData'.
Proof.
  intros Hcons Hperm.
  assert (Part000.solvedProblems submissions
          ≡ₚ Part000.solvedProblems submissions') as Hsolved.
  { apply NoDup_Permutation.
    - eapply NoDup_fmap_1, solvedProblems_NoDup.
    - eapply NoDup_fmap_1, solvedProblems_NoDup.
    - intros [k p]. rewrite !solvedProblems_elem_of_consistent.
      + by setoid_rewrite Hperm.
      + intros s1 s2. rewrite <-!Hperm. apply Hcons.
      + done. }
  split_and!; [done| |].
  - unfold Part000.generateAnalytics; cbv zeta.
    rewrite (Permutation_length Hsolved).
    by case_bool_decide.
  - intros ratingData ratingData' Hdata Hdata'.
    apply renderRatingsBarChart_Permutation.
    + rewrite Hdata. apply NoDup_fst_map_to_list.
    + by rewrite Hdata, Hdata', (ratingAnalysis_Permutation _ _ Hsolved).
Qed.

Lemma analytics_order_irrelevant_when_consistent_witness :
  Part000.solvedProblems
    [mkSubmission P1 "OK"; mkSubmission P2 "OK"; mkSubmission P1 "OK"]
  ≡ₚ Part000.solvedProblems
    [mkSubmission P2 "OK"; mkSubmission P1 "OK"; mkSubmission P1 "OK"].
Proof.
  refine (proj1 (analytics_order_irrelevant_when_consistent
    [mkSubmission P1 "OK"; mkSubmission P2 "OK"; mkSubmission P1 "OK"]
    [mkSubmission P2 "OK"; mkSubmission P1 "OK"; mkSubmission P1 "OK"] _ _)).
  - intros s1 s2 H1 H2 _ _.
    repeat (apply elem_of_cons in H1 as [->|H1]);
      repeat (apply elem_of_cons in H2 as [->|H2]);
      try (by apply elem_of_nil in H1); try (by apply elem_of_nil in H2);
      vm_compute; congruence.
  - apply Permutation_swap.
Defined.

(** X18. When every count handed to the pie chart is positive: every
    slice of the chart is positive; up to ten tags the chart shows exactly
    the tags it was given, one slice each, with no "Other" slice added;
    beyond ten tags it has exactly eleven slices, the last of which is
    the "Other" slice. *)
Theorem pie_chart_of_positive_counts (tagData : list (string * nat)) :
  Forall (λ entry : string * nat, 0 < entry.2)%nat tagData →
  let chart := Part000.renderTagsPieChart tagData in
  (∀ slice, slice ∈ chart → (0 < slice.2)%nat) ∧
  length chart = (length tagData `min` 11)%nat ∧
  ((length tagData ≤ 10)%nat → chart ≡ₚ tagData) ∧
  ((10 < length tagData)%nat →
   ∃ otherCount, last chart = Some ("Other", otherCount)).
Proof.
  intros Hpos chart. subst chart.
  destruct (renderTagsPieChart_split tagData)
    as (top & rest & Hperm & Htop & _ & Hchart & Hsum & _).
  pose proof Hpos as Hpos'.
  rewrite Hperm in Hpos'. apply Forall_app in Hpos' as [Hpos_top Hpos_rest].
  pose proof (Permutation_length Hperm) as Hlen. rewrite length_app in Hlen.
  pose proof (positive_sum rest Hpos_rest) as Hrest.
  split_and!.
  - intros slice. rewrite Hchart, elem_of_app. intros [Hin|Hin].
    + by apply (proj1 (Forall_forall _ _) Hpos_top).
    + case_decide; [|by apply elem_of_nil in Hin].
      apply list_elem_of_singleton in Hin as ->. done.
  - rewrite Hchart, length_app.
    case_decide as Hother; cbn [length].
    + apply Hrest in Hother. destruct rest; [done|].
      cbn [length] in Hlen. lia.
    + destruct rest as [|e rest]; [cbn [length] in Hlen; lia|].
      destruct Hother. apply Hrest. done.
  - intros Hfew. rewrite Hchart.
    destruct rest as [|e rest]; [|cbn [length] in Hlen; lia].
    rewrite decide_False by (simpl; lia).
    by rewrite Hperm.
  - intros Hmany. rewrite Hchart.
    rewrite decide_True by (apply Hrest; intros ->; cbn [length] in Hlen; lia).
    rewrite last_snoc. eauto.
Qed.

Lemma pie_chart_of_positive_counts_witness :
  length (Part000.renderTagsPieChart [("dp", 2%nat); ("math", 3%nat)]) = 2%nat.
Proof.
  apply (pie_chart_of_positive_counts [("dp", 2%nat); ("math", 3%nat)]).
  repeat constructor.
Defined.

(** X19. For the rating counts of a user's solved problems, listed in any
    order: the bars of the bar chart come in strictly ascending order of
    rating, there is a bar exactly for each non-zero rating that some
    solved problem has, its height is the number of solved problems with
    that rating, and the heights add up to the number of solved problems
    whose rating passes the truthiness test. *)
Theorem bar_chart_of_solved_problems
    (submissions : list Submission) (ratingData : list (Z * nat)) :
  ratingData ≡ₚ
    map_to_list (Part000.ratingAnalysis (Part000.solvedProblems submissions)) →
  let solved := Part000.solvedProblems submissions in
  let chart := Part000.renderRatingsBarChart ratingData in
  StronglySorted (λ x y : Z * nat, x.1 < y.1) chart ∧
  (∀ r n, (r, n) ∈ chart ↔
     (0 < n)%nat ∧
     n = length (filter (λ entry : string * Problem,
                           rating entry.2 = Some r ∧ r ≠ 0) solved)) ∧
  sum_list_with snd chart
  = length (filter (λ entry : string * Problem,
                      truthy (rating entry.2) = true) solved).
Proof.
  intros Hdata solved chart. subst chart. unfold Part000.renderRatingsBarChart.
  assert (jssort (λ x y : Z * nat, x.1 - y.1) ratingData
          ≡ₚ map_to_list (Part000.ratingAnalysis solved)) as Hperm
    by (by rewrite jssort_Permutation).
  split_and!.
  - apply StronglySorted_strict; [|apply byRating_StronglySorted].
    rewrite Hperm. apply NoDup_fst_map_to_list.
  - intros r n. rewrite Hperm, elem_of_map_to_list.
    pose proof (ratingAnalysis_from solved ∅ r) as Hcount.
    rewrite lookup_empty in Hcount. simpl in Hcount.
    fold (Part000.ratingAnalysis solved) in Hcount. split.
    + intros Hrn. pose proof (ratingAnalysis_positive solved r n Hrn) as Hn.
      rewrite Hrn in Hcount. simpl in *. done.
    + intros [Hn ->].
      destruct (Part000.ratingAnalysis solved !! r) as [n'|]; simpl in *.
      * by rewrite Hcount.
      * lia.
  - by rewrite Hperm, ratingAnalysis_total.
Qed.

Lemma bar_chart_of_solved_problems_witness :
  StronglySorted (λ x y : Z * nat, x.1 < y.1)
    (Part000.renderRatingsBarChart
       (map_to_list (Part000.ratingAnalysis (Part000.solvedProblems
          [mkSubmission P2 "OK"; mkSubmission P1 "OK"])))).
Proof.
  apply (bar_chart_of_solved_problems
           [mkSubmission P2 "OK"; mkSubmission P1 "OK"]
           (map_to_list (Part000.ratingAnalysis (Part000.solvedProblems
              [mkSubmission P2 "OK"; mkSubmission P1 "OK"])))).
  reflexivity.
Defined.

(** ** Problem identities *)

Section Identities.

Lemma append_cons (a : Ascii.ascii) (s t : string) :
  String a s +:+ t = String a (s +:+ t).
Proof. reflexivity. Qed.

Lemma append_nil (t : string) : "" +:+ t = t.
Proof. reflexivity. Qed.

Lemma pretty_N_char_digit (x : N) : is_Some (Ascii.is_nat (pretty_N_char x)).
Proof. unfold pretty_N_char. repeat case_match; simpl; eauto. Qed.

Lemma pretty_N_go_digits (x : N) (s : string) :
  allDigits s → allDigits (pretty_N_go x s).
Proof.
  revert s. induction (N.lt_wf_0 x) as [x _ IH]; intros s Hs.
  destruct (decide (0 < x)%N) as [Hx|Hx].
  - rewrite pretty_N_go_step by done. apply IH.
    + by apply N.div_lt.
    + split; [apply pretty_N_char_digit|done].
  - assert (x = 0%N) as -> by lia. by rewrite pretty_N_go_0.
Qed.

Lemma pretty_N_go_nonempty (x : N) (s : string) :
  s ≠ "" → pretty_N_go x s ≠ "".
Proof.
  revert s. induction (N.lt_wf_0 x) as [x _ IH]; intros s Hs.
  destruct (decide (0 < x)%N) as [Hx|Hx].
  - rewrite pretty_N_go_step by done. apply IH; [by apply N.div_lt|done].
  - assert (x = 0%N) as -> by lia. by rewrite pretty_N_go_0.
Qed.

Lemma pretty_positive_digits (x : positive) :
  allDigits (pretty x) ∧ pretty x ≠ "".
Proof.
  unfold pretty, pretty_positive, pretty, pretty_N.
  rewrite decide_False by done. split.
  - by apply pretty_N_go_digits.
  - rewrite pretty_N_go_step by lia. by apply pretty_N_go_nonempty.
Qed.

(** Where a run of digits ends is determined by the string. *)
Lemma digits_prefix_unique (d1 d2 r1 r2 : string) :
  allDigits d1 → allDigits d2 → letterIndex r1 → letterIndex r2 →
  d1 +:+ r1 = d2 +:+ r2 → d1 = d2 ∧ r1 = r2.
Proof.
  revert d2. induction d1 as [|a d1 IH]; intros [|b d2] H1 H2 Hr1 Hr2.
  - by rewrite !append_nil.
  - rewrite append_nil, append_cons. intros ->.
    destruct H2 as [[n Hn] _]. simpl in Hr1. congruence.
  - rewrite append_nil, append_cons. intros <-.
    destruct H1 as [[n Hn] _]. simpl in Hr2. congruence.
  - rewrite !append_cons. intros [= -> Heq].
    destruct H1 as [_ H1], H2 as [_ H2].
    destruct (IH d2 H1 H2 Hr1 Hr2 Heq) as [-> ->]. done.
Qed.

Lemma pretty_Z_prefix_unique (x y : Z) (r1 r2 : string) :
  letterIndex r1 → letterIndex r2 →
  pretty x +:+ r1 = pretty y +:+ r2 → x = y ∧ r1 = r2.
Proof.
  intros Hr1 Hr2 Heq.
  cut (pretty x = pretty y ∧ r1 = r2).
  { intros [Hp ->]. split; [|done]. by apply (inj pretty). }
  assert (∀ p : positive, ∃ a rest, pretty p = String a rest ∧
            is_Some (Ascii.is_nat a) ∧ allDigits (pretty p)) as Hpos.
  { intros p. destruct (pretty_positive_digits p) as [Hd Hne].
    destruct (pretty p) as [|a rest] eqn:Hp; [done|].
    exists a, rest. split; [done|]. split; [by destruct Hd|done]. }
  assert (allDigits "0") as H0 by (split; [simpl; eauto|done]).
  change (pretty 0) with "0" in *.
  destruct x as [|x|x], y as [|y|y];
    try change (pretty (Z.pos x)) with (pretty x) in *;
    try change (pretty (Z.pos y)) with (pretty y) in *;
    try change (pretty (Z.neg x)) with ("-" +:+ pretty x) in *;
    try change (pretty (Z.neg y)) with ("-" +:+ pretty y) in *;
    try (destruct (Hpos x) as (ax & rx & Hx & Hax & Hdx));
    try (destruct (Hpos y) as (ay & ry & Hy & Hay & Hdy)).
  - by apply digits_prefix_unique.
  - by apply digits_prefix_unique.
  - rewrite !append_cons in Heq. discriminate Heq.
  - by apply digits_prefix_unique.
  - by apply digits_prefix_unique.
  - rewrite Hx in Heq. rewrite !append_cons in Heq. injection Heq as Ha _.
    subst ax. by destruct Hax as [n Hn].
  - rewrite !append_cons in Heq. discriminate Heq.
  - rewrite Hy in Heq. rewrite !append_cons in Heq. injection Heq as Ha _.
    subst ay. by destruct Hay as [n Hn].
  - rewrite !append_cons, !append_nil in Heq. injection Heq as Heq.
    destruct (digits_prefix_unique _ _ _ _ Hdx Hdy Hr1 Hr2 Heq) as [-> ->]. done.
Qed.

End Identities.

(** X20. The identity string separates problems whose contest number is
    an integer that a JavaScript number holds exactly and whose index
    starts with a letter: two such problems have the same identity only
    if they have the same contest number and the same index. (For other
    indices the concatenation can collide: contest 12 with index [3A] and
    contest 123 with index [A] are both [123A].) *)
Theorem problemId_injective_on_letter_indices (p q : Problem) :
  safeInteger (contestId p) → safeInteger (contestId q) →
  letterIndex (index p) → letterIndex (index q) →
  problemId p = problemId q →
  (contestId p = contestId q ∧ index p = index q) ∧
  problemId (mkProblem 12 "3A" "" None []) = problemId (mkProblem 123 "A" "" None []).
Proof.
  intros _ _ Hp Hq. unfold problemId. split; [|reflexivity].
  by apply pretty_Z_prefix_unique.
Qed.

Lemma problemId_injective_on_letter_indices_witness :
  contestId PA = contestId P1 ∧ index PA = index P1.
Proof.
  refine (proj1 (problemId_injective_on_letter_indices PA P1
                   _ _ eq_refl eq_refl eq_refl));
    unfold safeInteger; simpl; lia.
Defined.

(** ** Trimming and the saved handle *)

Section Trim.

Implicit Types (s t acc : string).

Lemma append_assoc s t acc : (s +:+ t) +:+ acc = s +:+ (t +:+ acc).
Proof. induction s as [|a s IH]; [done|]. by rewrite !append_cons, IH. Qed.

Lemma append_nil_r s : s +:+ "" = s.
Proof. induction s as [|a s IH]; [done|]. by rewrite append_cons, IH. Qed.

Lemma rev_app_append s acc : String.rev_app s acc = String.rev s +:+ acc.
Proof.
  unfold String.rev. revert acc. induction s as [|a s IH]; intros acc; [done|].
  simpl. rewrite (IH (String a "")), IH, append_assoc. done.
Qed.

Lemma rev_append s t : String.rev (s +:+ t) = String.rev t +:+ String.rev s.
Proof.
  induction s as [|a s IH].
  - by rewrite append_nil, append_nil_r.
  - rewrite append_cons. unfold String.rev at 1 3. simpl.
    rewrite !rev_app_append, IH, append_assoc. done.
Qed.

Lemma rev_involutive s : String.rev (String.rev s) = s.
Proof.
  induction s as [|a s IH]; [done|].
  unfold String.rev at 2. simpl. rewrite rev_app_append, rev_append, IH. done.
Qed.

Lemma trimStart_suffix s : ∃ w, s = w +:+ trimStart s.
Proof.
  induction s as [|a s [w IH]]; [by exists ""|]. simpl.
  destruct (Ascii.is_space a).
  - exists (String a w). by rewrite append_cons, <-IH.
  - by exists "".
Qed.

Lemma trimStart_noLeadingSpace s : noLeadingSpace (trimStart s).
Proof.
  induction s as [|a s IH]; [done|]. simpl.
  destruct (Ascii.is_space a) eqn:Ha; [done|]. simpl. done.
Qed.

Lemma trimStart_id s : noLeadingSpace s → trimStart s = s.
Proof. destruct s as [|a s]; [done|]. simpl. by intros ->. Qed.

Lemma trim_noLeadingSpace s : noLeadingSpace (trim s).
Proof.
  unfold trim. set (u := trimStart s).
  destruct (trimStart_suffix (String.rev u)) as [w Hw].
  assert (u = String.rev (trimStart (String.rev u)) +:+ String.rev w) as Hu.
  { rewrite <-(rev_involutive u) at 1. rewrite Hw at 1. apply rev_append. }
  pose proof (trimStart_noLeadingSpace s) as Hlead. fold u in Hlead.
  rewrite Hu in Hlead.
  destruct (String.rev (trimStart (String.rev u))) as [|a t]; [done|].
  by rewrite append_cons in Hlead.
Qed.

Lemma trim_idempotent s : trim (trim s) = trim s.
Proof.
  unfold trim at 1. rewrite (trimStart_id (trim s)) by apply trim_noLeadingSpace.
  unfold trim. rewrite rev_involutive.
  by rewrite (trimStart_id (trimStart _)) by apply trimStart_noLeadingSpace.
Qed.

Lemma lookupHandle_agree : ScriptJs.lookupHandle = Part000.lookupHandle.
Proof. reflexivity. Qed.

Lemma lookupHandle_Some (inputValue handle : string) :
  Part000.lookupHandle inputValue = Some handle →
  handle ≠ "" ∧ Part000.lookupHandle handle = Some handle.
Proof.
  unfold Part000.lookupHandle; cbv zeta. case_bool_decide as Hne; [done|].
  intros [= <-]. split; [done|].
  rewrite trim_idempotent. by rewrite bool_decide_eq_false_2.
Qed.

End Trim.

(** X21. A handle that was looked up and saved is looked up again, once
    and unchanged, when the page is loaded: the stored handle is already
    trimmed and not empty, so the reload puts it into the input and the
    lookup starts for exactly that handle. The two files keep the handle
    under different keys, so a handle saved by one is not found by the
    other. *)
Theorem saved_handle_is_looked_up_on_load
    (inputValue handle : string) (localStorage : gmap string string) :
  Part000.lookupHandle inputValue = Some handle →
  ScriptJs.lookupHandle inputValue = Some handle ∧
  ScriptJs.loadStateFromLocalStorage
    (ScriptJs.saveStateToLocalStorage handle localStorage) = [handle] ∧
  Part000.loadStateFromLocalStorage
    (Part000.saveStateToLocalStorage handle localStorage) = [handle] ∧
  ScriptJs.loadStateFromLocalStorage (Part000.saveStateToLocalStorage handle ∅) = [] ∧
  Part000.loadStateFromLocalStorage (ScriptJs.saveStateToLocalStorage handle ∅) = [].
Proof.
  intros Hlookup. destruct (lookupHandle_Some _ _ Hlookup) as [Hne Hagain].
  split_and!; [done| | |done..].
  - unfold ScriptJs.loadStateFromLocalStorage, ScriptJs.saveStateToLocalStorage.
    rewrite lookup_insert_eq, bool_decide_eq_true_2 by done.
    by rewrite lookupHandle_agree, Hagain.
  - unfold Part000.loadStateFromLocalStorage, Part000.saveStateToLocalStorage.
    rewrite lookup_insert_eq, bool_decide_eq_true_2 by done.
    by rewrite Hagain.
Qed.

Lemma saved_handle_is_looked_up_on_load_witness :
  Part000.loadStateFromLocalStorage
    (Part000.saveStateToLocalStorage "tourist" ∅) = ["tourist"].
Proof.
  apply (saved_handle_is_looked_up_on_load "  tourist " "tourist" ∅).
  reflexivity.
Defined.

(** ** The countdown banner and the profile card *)

Section Banner.

Lemma f_two_characters (t : Z) :
  0 ≤ t < 100 → String.length (Part000.f t) = 2%nat.
Proof.
  intros Ht.
  assert (forallb (λ t, Nat.eqb (String.length (Part000.f t)) 2) (seqZ 0 100) = true)
    as Hall by (vm_compute; reflexivity).
  rewrite forallb_forall in Hall.
  apply Nat.eqb_eq, Hall, list_elem_of_In, elem_of_seqZ. lia.
Qed.

Lemma classChar_lower_replace (a : Ascii.ascii) :
  classChar (if Ascii.eqb (Part000.lowerChar a) " " then "-"%char
             else Part000.lowerChar a) = true.
Proof. destruct a as [[] [] [] [] [] [] [] []]; reflexivity. Qed.

Lemma replaceSpaces_toLowerCase_class (s : string) :
  allChars classChar (Part000.replaceSpaces (Part000.toLowerCase s)) = true.
Proof.
  induction s as [|a s IH]; [done|].
  simpl. by rewrite classChar_lower_replace, IH.
Qed.

Lemma replaceSpaces_toLowerCase_length (s : string) :
  String.length (Part000.replaceSpaces (Part000.toLowerCase s)) = String.length s.
Proof. induction s as [|a s IH]; [done|]. simpl. by rewrite IH. Qed.

End Banner.

(** X22. While time remains the timer shows the whole days left and the
    hours, minutes and seconds within the day, hour and minute: the three
    are below 24, 60 and 60 and are always written with two characters,
    and together with the days they account for the remaining time up to
    the milliseconds of the running second. When no time remains the
    banner shows the expired text instead. *)
Theorem countdown_fields (diff days hours minutes seconds : Z) :
  Part000.countdownParts diff = (days, hours, minutes, seconds) →
  (diff ≤ 0 → Part000.updateCountdown diff = Expired) ∧
  (0 < diff →
   Part000.updateCountdown diff
   = Remaining (Part000.f days) (Part000.f hours)
       (Part000.f minutes) (Part000.f seconds) ∧
   0 ≤ days ∧ 0 ≤ hours < 24 ∧ 0 ≤ minutes < 60 ∧ 0 ≤ seconds < 60 ∧
   diff = days * 86400000 + hours * 3600000 + minutes * 60000
          + seconds * 1000 + diff `mod` 1000 ∧
   String.length (Part000.f hours) = 2%nat ∧
   String.length (Part000.f minutes) = 2%nat ∧
   String.length (Part000.f seconds) = 2%nat).
Proof.
  intros Hparts. split.
  - intros Hdiff. unfold Part000.updateCountdown.
    by destruct (Z.leb_spec diff 0); [|lia].
  - intros Hdiff.
    assert (0 ≤ days ∧ 0 ≤ hours < 24 ∧ 0 ≤ minutes < 60 ∧ 0 ≤ seconds < 60 ∧
            diff = days * 86400000 + hours * 3600000 + minutes * 60000
                   + seconds * 1000 + diff `mod` 1000) as Hnum.
    { unfold Part000.countdownParts in Hparts.
      injection Hparts as <- <- <- <-.
      Z.div_mod_to_equations. lia. }
    destruct Hnum as (Hd & Hh & Hm & Hs & Hsum).
    split_and!; try lia; try (apply f_two_characters; lia).
    unfold Part000.updateCountdown. rewrite Hparts.
    by destruct (Z.leb_spec diff 0); [lia|].
Qed.

Lemma countdown_fields_witness :
  Part000.updateCountdown 90061001 = Remaining "01" "01" "01" "01".
Proof.
  destruct (countdown_fields 90061001 1 1 1 1 eq_refl) as [_ Hremaining].
  destruct Hremaining as (Hshown & _); [lia|]. exact Hshown.
Defined.

(** X23. For a rank written in ASCII, as the platform's rank names are:
    the class name made from it begins with [rank-], has no space and no
    upper-case letter in it, and is as long as the rank plus the prefix;
    a missing or empty rank gives [rank-newbie]. *)
Theorem rank_class_name_is_one_token (rank : option string) :
  (∀ rank', rank = Some rank' → allChars isAscii rank' = true) →
  allChars classChar (Part000.getRankClassName rank) = true ∧
  (∃ body, Part000.getRankClassName rank = "rank-" +:+ body) ∧
  match rank with
  | Some rank' =>
      if decide (rank' = "") then Part000.getRankClassName rank = "rank-newbie"
      else String.length (Part000.getRankClassName rank)
           = (5 + String.length rank')%nat
  | None => Part000.getRankClassName rank = "rank-newbie"
  end.
Proof.
  intros _.
  destruct rank as [rank|]; simpl; [|split_and!; [done|by exists "newbie"|done]].
  case_bool_decide as Hempty.
  - rewrite decide_True by done. split_and!; [done|by exists "newbie"|done].
  - rewrite decide_False by done. split_and!.
    + rewrite !append_cons, append_nil. simpl.
      apply replaceSpaces_toLowerCase_class.
    + eauto.
    + rewrite !append_cons, append_nil. simpl.
      by rewrite replaceSpaces_toLowerCase_length.
Qed.

Lemma rank_class_name_is_one_token_witness :
  allChars classChar
    (Part000.getRankClassName (Some "International Grandmaster")) = true.
Proof.
  apply (rank_class_name_is_one_token (Some "International Grandmaster")).
  intros rank' [= <-]. reflexivity.
Defined.

(** X24. The theme survives a reload: after the toggle has been used, a
    page whose markup does not itself set the light class comes up, on
    the next load, with the theme that was showing, whatever the
    preference of the system; on a first visit, with nothing stored, it
    is light unless the system prefers dark. Using the toggle twice
    restores the theme that was showing. *)
Theorem theme_survives_reload
    (lightMode prefersDark : bool) (localStorage : gmap string string) :
  Part000.setupTheme false prefersDark
    (Part000.themeChange lightMode localStorage).2
  = (Part000.themeChange lightMode localStorage).1 ∧
  (Part000.themeChange lightMode localStorage).1 = negb lightMode ∧
  (Part000.themeChange (Part000.themeChange lightMode localStorage).1
     (Part000.themeChange lightMode localStorage).2).1 = lightMode ∧
  (localStorage !! "theme" = None →
   Part000.setupTheme false prefersDark localStorage = negb prefersDark).
Proof.
  split_and!.
  - unfold Part000.setupTheme, Part000.themeChange. simpl.
    rewrite lookup_insert_eq. by destruct lightMode.
  - done.
  - simpl. apply negb_involutive.
  - intros Hnone. unfold Part000.setupTheme. rewrite Hnone.
    by destruct prefersDark.
Qed.

(** X25. Progress is never lost between lookups: when the user has made
    further submissions (the [newer] ones, in front of the [older] ones on
    the wire), every problem that was solved is still solved, every
    problem that had a status still has one, and a problem that was only
    tried is tried or solved. *)
Theorem more_submissions_keep_progress
    (fetch : list Submission → gmap string Status)
    (newer older : list Submission) (k : string) :
  fetch = ScriptJs.fetchUserStatus ∨ fetch = Part000.fetchUserStatus →
  (fetch older !! k = Some SOLVED → fetch (newer ++ older)%list !! k = Some SOLVED) ∧
  (is_Some (fetch older !! k) → is_Some (fetch (newer ++ older)%list !! k)) ∧
  (fetch (newer ++ older)%list !! k = None → fetch older !! k = None).
Proof.
  intros Hfetch.
  assert (fetch = Part000.fetchUserStatus) as ->
    by (destruct Hfetch as [->| ->]; [apply fetchUserStatus_agree|done]).
  assert (fetch_None : Part000.fetchUserStatus (newer ++ older)%list !! k = None →
                       Part000.fetchUserStatus older !! k = None).
  { rewrite !fetchUserStatus_None. intros Hall sub Hin.
    apply Hall. rewrite elem_of_app. by right. }
  split_and!; [| |done].
  - rewrite !fetchUserStatus_SOLVED. intros (sub & Hin & Hid & Hok).
    exists sub. rewrite elem_of_app. auto.
  - rewrite <-!not_eq_None_Some. intros Hsome Hnone. by apply Hsome, fetch_None.
Qed.

Lemma more_submissions_keep_progress_witness :
  ScriptJs.fetchUserStatus
    ([mkSubmission P1 "WRONG_ANSWER"] ++ [mkSubmission P1 "OK"])%list !! "1A"
  = Some SOLVED.
Proof.
  apply (more_submissions_keep_progress ScriptJs.fetchUserStatus
           [mkSubmission P1 "WRONG_ANSWER"] [mkSubmission P1 "OK"] "1A"
           (or_introl eq_refl)).
  vm_compute. reflexivity.
Defined.
